(** * Ledger core: amounts, bucket state machine, journal poster, outbox

    A shallow embedding of the ledger service
    ([src/domain/types.ts], [src/domain/stateMachine.ts],
    [src/services/journalService.ts], [src/services/outboxService.ts])
    and the properties of its specification that were checked against it.

    Conventions of the embedding:
    - a JS [string] is a [string] of the Standard Library; a [bigint] is a [Z];
    - a JS [number] holding money is an exact rational [Q] (IEEE rounding is
      not modelled; every finite double is a rational, and the decimal
      amounts admitted by the schema are read at their exact value);
    - a [number] holding a count or milliseconds is a [Z];
    - a function that throws returns [Err e]; the MongoDB collections are
      fields of a [Store] record threaded through the calls. *)

From Stdlib Require Import ZArith QArith Qround Lqa String Ascii List Bool Lia.
From Stdlib Require Import DecimalString DecimalFacts DecimalPos DecimalN.
From stdpp Require Import gmap strings.
Import ListNotations.

Local Open Scope string_scope.
Local Open Scope Z_scope.

(** ** Results of functions that may throw *)

Inductive result (E A : Type) : Type :=
| Ok (a : A)
| Err (e : E).
Arguments Ok {E A} a.
Arguments Err {E A} e.

Definition rbind {E A B} (r : result E A) (k : A -> result E B) : result E B :=
  match r with
  | Ok a => k a
  | Err e => Err e
  end.

Notation "'do' x <- r ; k" := (rbind r (fun x => k))
  (at level 10, x name, r at level 100, k at level 200).
Notation "'do' ' p <- r ; k" := (rbind r (fun x => let 'p := x in k))
  (at level 10, p pattern, r at level 100, k at level 200).

(** ** JavaScript string primitives used by [src/domain/types.ts] *)

Module JsString.

(** [\d] of a JS regular expression: the ASCII digits. *)
Definition is_digit (c : ascii) : bool :=
  match c with
  | "0" | "1" | "2" | "3" | "4" | "5" | "6" | "7" | "8" | "9" => true
  | _ => false
  end%char.

Fixpoint all_digits (s : string) : bool :=
  match s with
  | EmptyString => true
  | String c r => is_digit c && all_digits r
  end.

Definition nonempty (s : string) : bool :=
  match s with EmptyString => false | _ => true end.

(** Longest prefix of digits, and what follows it. *)
Fixpoint span_digits (s : string) : string * string :=
  match s with
  | EmptyString => (EmptyString, EmptyString)
  | String c r =>
      if is_digit c
      then let '(d, rest) := span_digits r in (String c d, rest)
      else (EmptyString, s)
  end.

(** [/^\d+(?:\.\d{1,max})?$/.test(s)]; [max = None] is the open
    quantifier [{1,}]. *)
Definition re_decimal (max : option nat) (s : string) : bool :=
  let '(i, rest) := span_digits s in
  nonempty i &&
  match rest with
  | EmptyString => true
  | String "."%char f =>
      nonempty f && all_digits f &&
      match max with
      | None => true
      | Some m => Nat.leb (String.length f) m
      end
  | _ => false
  end.

(** [/^0{1,2}$/.test(s)]. *)
Definition re_zeros_1_2 (s : string) : bool :=
  String.eqb s "0" || String.eqb s "00".

(** [s.split(".")]. *)
Fixpoint split_dot_aux (cur : string) (s : string) : list string :=
  match s with
  | EmptyString => [cur]
  | String c r =>
      if Ascii.eqb c "."%char
      then cur :: split_dot_aux EmptyString r
      else split_dot_aux (cur ++ String c EmptyString) r
  end.
Definition split_dot (s : string) : list string := split_dot_aux EmptyString s.

(** [const [int, frac = ""] = parts]: a missing first element is
    [undefined] in JS; it does not occur here since [split] never returns
    an empty array, and is read as the empty string. *)
Definition destructure2 (parts : list string) : string * string :=
  match parts with
  | [] => (EmptyString, EmptyString)
  | [i] => (i, EmptyString)
  | i :: f :: _ => (i, f)
  end.

(** [s.slice(0, 2)]. *)
Definition slice_0_2 (s : string) : string :=
  match s with
  | String a (String b _) => String a (String b EmptyString)
  | _ => s
  end.

(** [s.padEnd(2, "0")]. *)
Definition padEnd_2_0 (s : string) : string :=
  match s with
  | EmptyString => "00"
  | String a EmptyString => String a "0"
  | _ => s
  end.

(** [s.replace(/\.00$/, "")]. *)
Fixpoint strip_dot00 (s : string) : string :=
  match s with
  | EmptyString => EmptyString
  | String c r =>
      if String.eqb s ".00" then EmptyString else String c (strip_dot00 r)
  end.

(** [BigInt(s)] on a string of decimal digits (the only strings the
    ledger passes to it); the empty string is [0n]. Any other string is a
    [SyntaxError], here [None]. *)
Definition BigInt (s : string) : option Z :=
  match NilEmpty.uint_of_string s with
  | Some d => Some (Z.of_N (N.of_uint d))
  | None => None
  end.

(** [String(n)] for a non-negative [bigint]: decimal, no leading zeros. *)
Definition String_of_bigint (n : Z) : string :=
  NilZero.string_of_uint (N.to_uint (Z.to_N n)).

End JsString.
Import JsString.

(** ** Amounts: [src/domain/types.ts] *)

Inductive Side := debit | credit.
Inductive Bucket := available | pending | escrow | outflow.
Inductive Transition := reserve | lock | finalize | release | revert.

Record AmountInput := { currency : string; amount : string }.

Record LineInput := {
  accountId : string;
  fromBucket : option Bucket;
  toBucket : option Bucket;
  side : Side;
  amount_ : AmountInput;
  transition : Transition
}.

Record JournalInput := {
  journalId : string;
  idempotencyKey : string;
  lines : list LineInput
}.

(** The errors the core throws, one constructor per [throw] site. *)
Inductive LedgerError :=
| ValidationError (path : string)
| InvalidAmountString (str : string)
| JournalNotBalanced
| CurrencyMismatch
| EmptyJournal
| MissingBucket (field : string) (t : Transition)
| InvalidBucket (field : string) (b : Bucket) (t : Transition)
| InvalidAmountFor (account : string) (str : string)
| InsufficientFundsOrCurrency (account : string)
| NegativeBucket (k : Bucket) (account : string)
| DuplicateKey
| ChaosFailure.

(** [raw] has matched the regular expression when [BigInt(int)] is
    evaluated, so [int] is a run of digits and [BigInt] does not throw
    ([AmountFacts.BigInt_digits]); the [None] branch has no input. *)
Definition normalizeAmountString (raw : string) : string :=
  if negb (re_decimal None raw) then raw
  else
    let '(int, frac) := destructure2 (split_dot raw) in
    let i := match BigInt int with
             | Some n => String_of_bigint n
             | None => int
             end in
    if negb (nonempty frac) then i
    else
      let f := slice_0_2 frac in
      if negb (nonempty f) || re_zeros_1_2 f then i
      else strip_dot00 (i ++ "." ++ padEnd_2_0 f).

Definition cents (str : string) : result LedgerError Z :=
  let normalized := normalizeAmountString str in
  if negb (re_decimal (Some 2%nat) normalized) then Err (InvalidAmountString str)
  else
    let '(int, frac) := destructure2 (split_dot normalized) in
    match BigInt int,
          BigInt (slice_0_2 (padEnd_2_0 (if nonempty frac then frac else "0"))) with
    | Some ip, Some fracPart => Ok (ip * 100 + fracPart)
    | _, _ => Err (InvalidAmountString str)
    end.

Fixpoint assertBalanced_loop (ls : list LineInput) (sum : Z) : result LedgerError Z :=
  match ls with
  | [] => Ok sum
  | l :: rest =>
      do v <- cents (amount (amount_ l));
      assertBalanced_loop rest (sum + (match side l with debit => v | credit => - v end))
  end.

Definition assertBalanced (ls : list LineInput) : result LedgerError unit :=
  do sum <- assertBalanced_loop ls 0;
  if negb (sum =? 0) then Err JournalNotBalanced else Ok tt.

Definition assertSingleCurrency (ls : list LineInput) : result LedgerError string :=
  match ls with
  | [] => Ok "USD"
  | l0 :: _ =>
      let base := currency (amount_ l0) in
      if forallb (fun l => String.eqb (currency (amount_ l)) base) ls
      then Ok base else Err CurrencyMismatch
  end.

(** ** The decimal value of an amount, as the specification words it *)

Definition digit_val (c : ascii) : Z := Z.of_nat (nat_of_ascii c) - 48.

Fixpoint digits_value_acc (s : string) (acc : Z) : Z :=
  match s with
  | EmptyString => acc
  | String c r => digits_value_acc r (10 * acc + digit_val c)
  end.

Definition digits_value (s : string) : Z := digits_value_acc s 0.

(** Value in minor units of [int] or [int.f] or [int.fg]: the integer part
    counts hundreds of cents, the first fraction digit tens, the second
    units. *)
Definition toMinor_spec (s : string) : Z :=
  let '(i, rest) := span_digits s in
  100 * digits_value i +
  match rest with
  | String "."%char (String a EmptyString) => 10 * digit_val a
  | String "."%char (String a (String b EmptyString)) => 10 * digit_val a + digit_val b
  | _ => 0
  end.

Definition signed_minor (l : LineInput) : Z :=
  match side l with
  | debit => toMinor_spec (amount (amount_ l))
  | credit => - toMinor_spec (amount (amount_ l))
  end.

Definition sum_signed_minor (ls : list LineInput) : Z :=
  fold_right Z.add 0 (map signed_minor ls).

(** The integer part of a canonical amount has no leading zero, its
    fraction is absent or has two digits that are not both zero. *)
Definition no_leading_zero (i : string) : bool :=
  match i with
  | String "0"%char (String _ _) => false
  | _ => true
  end.

Definition is_canonical (s : string) : bool :=
  let '(i, rest) := span_digits s in
  nonempty i && no_leading_zero i &&
  match rest with
  | EmptyString => true
  | String "."%char (String a (String b EmptyString)) =>
      is_digit a && is_digit b && negb (String.eqb (String a (String b EmptyString)) "00")
  | _ => false
  end.

(** Value of a decimal numeral of the Standard Library, read digit by
    digit; it links [BigInt] to [digits_value]. *)
Fixpoint uint_value_acc (d : Decimal.uint) (acc : Z) : Z :=
  match d with
  | Decimal.Nil => acc
  | Decimal.D0 l => uint_value_acc l (10 * acc)
  | Decimal.D1 l => uint_value_acc l (10 * acc + 1)
  | Decimal.D2 l => uint_value_acc l (10 * acc + 2)
  | Decimal.D3 l => uint_value_acc l (10 * acc + 3)
  | Decimal.D4 l => uint_value_acc l (10 * acc + 4)
  | Decimal.D5 l => uint_value_acc l (10 * acc + 5)
  | Decimal.D6 l => uint_value_acc l (10 * acc + 6)
  | Decimal.D7 l => uint_value_acc l (10 * acc + 7)
  | Decimal.D8 l => uint_value_acc l (10 * acc + 8)
  | Decimal.D9 l => uint_value_acc l (10 * acc + 9)
  end.

(** A string matches [/^\d+(?:\.\d{1,max})?$/] exactly when it is a run
    of digits, or two runs of digits around one dot. *)
Inductive decimal_shape (max : option nat) (s : string) : Prop :=
| shape_int :
    all_digits s = true -> nonempty s = true -> decimal_shape max s
| shape_frac i f :
    s = i ++ String "."%char f ->
    all_digits i = true -> nonempty i = true ->
    all_digits f = true -> nonempty f = true ->
    match max with None => True | Some m => (String.length f <= m)%nat end ->
    decimal_shape max s.

(** ** Bucket state machine: [src/domain/stateMachine.ts] *)

#[global] Instance Bucket_eq_dec : EqDecision Bucket.
Proof. solve_decision. Defined.
#[global] Instance Transition_eq_dec : EqDecision Transition.
Proof. solve_decision. Defined.
#[global] Instance Side_eq_dec : EqDecision Side.
Proof. solve_decision. Defined.

(** [Bucket | Bucket[]]. *)
Inductive Expected :=
| One (b : Bucket)
| Many (bs : list Bucket).

Record TransitionRule := {
  name : Transition;
  from : Expected;
  to : Expected
}.

Definition RULES (t : Transition) : TransitionRule :=
  match t with
  | reserve  => {| name := reserve;  from := One available;           to := One pending |}
  | lock     => {| name := lock;     from := Many [pending; available]; to := One escrow |}
  | finalize => {| name := finalize; from := Many [escrow];            to := One outflow |}
  | release  => {| name := release;  from := One pending;             to := One available |}
  | revert   => {| name := revert;   from := One escrow;              to := One available |}
  end.

(** [RULES] has an entry for each of the five transitions, so the
    [Unknown transition] throw of [getRule] has no input. *)
Definition getRule (t : Transition) : TransitionRule := RULES t.

Definition bucketMatches (val : Bucket) (expected : Expected) : bool :=
  match expected with
  | Many bs => bool_decide (val ∈ bs)
  | One b => bool_decide (val = b)
  end.

Definition validateTransition (line : LineInput) : result LedgerError unit :=
  let rule := getRule (transition line) in
  if bool_decide (fromBucket line = toBucket line) then Ok tt
  else
    match fromBucket line with
    | None => Err (MissingBucket "fromBucket" (name rule))
    | Some fb =>
        match toBucket line with
        | None => Err (MissingBucket "toBucket" (name rule))
        | Some tb =>
            if negb (bucketMatches fb (from rule))
            then Err (InvalidBucket "fromBucket" fb (name rule))
            else if negb (bucketMatches tb (to rule))
            then Err (InvalidBucket "toBucket" tb (name rule))
            else Ok tt
        end
    end.

Fixpoint validateAllTransitions (ls : list LineInput) : result LedgerError unit :=
  match ls with
  | [] => Ok tt
  | line :: rest => do _ <- validateTransition line; validateAllTransitions rest
  end.


(** ** Documents: [src/domain/docs.ts] *)

(** A bucket holds a JS [number]. *)
Record Buckets := {
  b_available : Q;
  b_pending : Q;
  b_escrow : Q;
  b_outflow : Q
}.

(** The [_id] of an account is its key in the [accounts] collection. *)
Record AccountDoc := {
  acc_currency : string;
  buckets : Buckets;
  acc_createdAt : Z;
  acc_updatedAt : option Z;
  lastTxHint : option string
}.

Record LedgerEntryDoc := {
  le_journalId : string;
  lineNo : Z;
  le_accountId : string;
  le_fromBucket : option Bucket;
  le_toBucket : option Bucket;
  le_side : Side;
  le_transition : Transition;
  le_amount : string;
  le_currency : string;
  le_createdAt : Z
}.

Inductive JournalStatus := journal_pending | journal_posted.

Record JournalDoc := {
  j_journalId : string;
  j_idempotencyKey : string;
  j_lines : list LineInput;
  j_status : JournalStatus;
  j_createdAt : Z
}.

Inductive OutboxStatus := ob_pending | ob_processing | ob_sent.

#[global] Instance OutboxStatus_eq_dec : EqDecision OutboxStatus.
Proof. solve_decision. Defined.

(** [payload] is [{ journalId }]; it is kept as that journal id. *)
Record OutboxDoc := {
  ob_id : N;
  ob_journalId : string;
  topic : string;
  payload : string;
  status : OutboxStatus;
  attempts : Z;
  nextAttemptAt : Z;
  ob_createdAt : Z;
  ob_updatedAt : Z
}.

(** The four collections the core writes. [journals], [ledger_entries] and
    [outbox] are kept in insertion order. *)
Record Store := {
  accounts : gmap string AccountDoc;
  journals : list JournalDoc;
  ledger_entries : list LedgerEntryDoc;
  outbox : list OutboxDoc
}.

Definition set_accounts (s : Store) (a : gmap string AccountDoc) : Store :=
  {| accounts := a; journals := journals s;
     ledger_entries := ledger_entries s; outbox := outbox s |}.

Definition get_bucket (k : Bucket) (b : Buckets) : Q :=
  match k with
  | available => b_available b
  | pending => b_pending b
  | escrow => b_escrow b
  | outflow => b_outflow b
  end.

Definition set_bucket (k : Bucket) (v : Q) (b : Buckets) : Buckets :=
  match k with
  | available => {| b_available := v; b_pending := b_pending b;
                    b_escrow := b_escrow b; b_outflow := b_outflow b |}
  | pending => {| b_available := b_available b; b_pending := v;
                  b_escrow := b_escrow b; b_outflow := b_outflow b |}
  | escrow => {| b_available := b_available b; b_pending := b_pending b;
                 b_escrow := v; b_outflow := b_outflow b |}
  | outflow => {| b_available := b_available b; b_pending := b_pending b;
                  b_escrow := b_escrow b; b_outflow := v |}
  end.

(** [$inc] of one bucket field. *)
Definition inc_bucket (k : Bucket) (d : Q) (b : Buckets) : Buckets :=
  set_bucket k (Qred (get_bucket k b + d)) b.

Definition zero_buckets : Buckets :=
  {| b_available := 0; b_pending := 0; b_escrow := 0; b_outflow := 0 |}.

(** ** Journal poster: [src/services/journalService.ts] *)

(** [Number(s)] on the plain decimals [\d+(\.\d+)?], read at their exact
    value; [None] is [NaN]. The other numeric literals of JS (sign,
    exponent, hexadecimal, surrounding blanks, the empty string) never reach
    the poster, whose amounts have passed [AmountSchema]. *)
Definition Number_ (s : string) : option Q :=
  if re_decimal None s then
    let '(i, f) := destructure2 (split_dot s) in
    Some (Qred (inject_Z (digits_value i)
                + Qmake (digits_value f) (Z.to_pos (10 ^ Z.of_nat (String.length f)))))
  else None.

Definition SYSTEM_OVERDRAFT_ACCOUNTS : list string := ["ESCROW_POOL"].

Definition is_overdraft (accountId : string) : bool :=
  bool_decide (accountId ∈ SYSTEM_OVERDRAFT_ACCOUNTS).

(** The first [updateOne] of [applyLineAtomic]: an upsert with
    [$setOnInsert] only. *)
Definition ensureAccount (now : Z) (id cur : string)
    (accts : gmap string AccountDoc) : gmap string AccountDoc :=
  match accts !! id with
  | Some _ => accts
  | None =>
      <[id := {| acc_currency := cur; buckets := zero_buckets;
                 acc_createdAt := now; acc_updatedAt := Some now;
                 lastTxHint := None |}]> accts
  end.

(** [inc[`buckets.${fromBucket}`] = ... - amtNum] and
    [inc[`buckets.${toBucket}`] = ... + amtNum], applied by [$inc]. *)
Definition apply_inc (fb tb : option Bucket) (amtNum : Q) (b : Buckets) : Buckets :=
  let b1 := match fb with Some k => inc_bucket k (0 - amtNum) b | None => b end in
  match tb with Some k => inc_bucket k (0 + amtNum) b1 | None => b1 end.

Definition is_noop (line : LineInput) : bool :=
  match fromBucket line, toBucket line with
  | Some fb, Some tb => bool_decide (fb = tb)
  | _, _ => false
  end.

(** The predicate of the guarded [updateOne]: [_id] (the key), [currency],
    and [buckets.<from> >= amtNum] when [shouldGuard]. *)
Definition guard_matches (id : string) (line : LineInput) (amtNum : Q)
    (doc : AccountDoc) : bool :=
  String.eqb (acc_currency doc) (currency (amount_ line)) &&
  match fromBucket line with
  | Some fb =>
      if negb (is_overdraft id)
      then Qle_bool amtNum (get_bucket fb (buckets doc))
      else true
  | None => true
  end.

Definition applyLineAtomic (now : Z) (s : Store) (line : LineInput)
    : result LedgerError Store :=
  let id := accountId line in
  let amt := amount_ line in
  match Number_ (amount amt) with
  | None => Err (InvalidAmountFor id (amount amt))
  | Some amtNum =>
      if negb (Qle_bool 0 amtNum) then Err (InvalidAmountFor id (amount amt))
      else
        (* ensure account exists *)
        let accts := ensureAccount now id (currency amt) (accounts s) in
        match accts !! id with
        | None => Err (InsufficientFundsOrCurrency id)
        | Some doc =>
            if is_noop line then
              (* short-circuit no-ops *)
              Ok (set_accounts s
                    (<[id := {| acc_currency := acc_currency doc;
                                buckets := buckets doc;
                                acc_createdAt := acc_createdAt doc;
                                acc_updatedAt := Some now;
                                lastTxHint := Some "noop" |}]> accts))
            else if guard_matches id line amtNum doc then
              (* guarded movement *)
              Ok (set_accounts s
                    (<[id := {| acc_currency := acc_currency doc;
                                buckets := apply_inc (fromBucket line) (toBucket line)
                                             amtNum (buckets doc);
                                acc_createdAt := acc_createdAt doc;
                                acc_updatedAt := Some now;
                                lastTxHint := lastTxHint doc |}]> accts))
            else Err (InsufficientFundsOrCurrency id)
        end
  end.

Definition appendLedgerEntry (now : Z) (s : Store) (jid : string) (n : Z)
    (line : LineInput) : Store :=
  {| accounts := accounts s; journals := journals s;
     ledger_entries :=
       ledger_entries s ++
       [ {| le_journalId := jid; lineNo := n; le_accountId := accountId line;
            le_fromBucket := fromBucket line; le_toBucket := toBucket line;
            le_side := side line; le_transition := transition line;
            le_amount := amount (amount_ line);
            le_currency := currency (amount_ line);
            le_createdAt := now |} ];
     outbox := outbox s |}.

(** [_id] chosen by the store for an inserted outbox item: one not in use. *)
Definition fresh_ob_id (items : list OutboxDoc) : N :=
  N.succ (fold_right N.max 0%N (map ob_id items)).

Definition enqueueOutboxPosted (now : Z) (s : Store) (jid : string) : Store :=
  {| accounts := accounts s; journals := journals s;
     ledger_entries := ledger_entries s;
     outbox :=
       outbox s ++
       [ {| ob_id := fresh_ob_id (outbox s); ob_journalId := jid;
            topic := "LedgerEvent.Posted"; payload := jid;
            status := ob_pending; attempts := 0; nextAttemptAt := now;
            ob_createdAt := now; ob_updatedAt := now |} ] |}.

Definition journal_matches (input : JournalInput) (d : JournalDoc) : bool :=
  String.eqb (j_idempotencyKey d) (idempotencyKey input)
  || String.eqb (j_journalId d) (journalId input).

(** [findOne({ $or: [{ idempotencyKey }, { journalId }] })]. *)
Definition findExistingJournal (s : Store) (input : JournalInput) : option JournalDoc :=
  List.find (journal_matches input) (journals s).

(** [insertOne] into [journals], whose two unique indexes ([uniq_idem],
    [uniq_journal], created at start-up) reject a second document with
    the same key or id. *)
Definition createJournalHeader (now : Z) (s : Store) (input : JournalInput)
    : result LedgerError Store :=
  if existsb (journal_matches input) (journals s) then Err DuplicateKey
  else
    Ok {| accounts := accounts s;
          journals :=
            journals s ++
            [ {| j_journalId := journalId input;
                 j_idempotencyKey := idempotencyKey input;
                 j_lines := lines input;
                 j_status := journal_pending; j_createdAt := now |} ];
          ledger_entries := ledger_entries s; outbox := outbox s |}.

Definition set_posted (d : JournalDoc) : JournalDoc :=
  {| j_journalId := j_journalId d; j_idempotencyKey := j_idempotencyKey d;
     j_lines := j_lines d; j_status := journal_posted;
     j_createdAt := j_createdAt d |}.

(** [updateOne(filter, update)] on a list: the first document that
    matches is updated. *)
Fixpoint update_first {A} (p : A -> bool) (f : A -> A) (l : list A) : list A :=
  match l with
  | [] => []
  | x :: r => if p x then f x :: r else x :: update_first p f r
  end.

Definition markJournalPosted (s : Store) (jid : string) : Store :=
  {| accounts := accounts s;
     journals := update_first (fun d => String.eqb (j_journalId d) jid) set_posted (journals s);
     ledger_entries := ledger_entries s; outbox := outbox s |}.

Definition nonneg_buckets (b : Buckets) : Prop :=
  forall k, (0 <= get_bucket k b)%Q.

Definition first_negative (b : Buckets) : option Bucket :=
  List.find (fun k => negb (Qle_bool 0 (get_bucket k b)))
            [available; pending; escrow; outflow].

(** The sweep looks up the affected accounts; an id without a document
    yields nothing to check. *)
Fixpoint assertNoNegativeBuckets (s : Store) (accountIds : list string)
    : result LedgerError unit :=
  match accountIds with
  | [] => Ok tt
  | id :: rest =>
      match accounts s !! id with
      | None => assertNoNegativeBuckets s rest
      | Some doc =>
          if is_overdraft id then assertNoNegativeBuckets s rest
          else
            match first_negative (buckets doc) with
            | Some k => Err (NegativeBucket k id)
            | None => assertNoNegativeBuckets s rest
            end
      end
  end.

(** [affectedAccounts.add(id)] on a [Set] kept in insertion order. *)
Definition set_add (id : string) (l : list string) : list string :=
  if bool_decide (id ∈ l) then l else l ++ [id].

Fixpoint applyLines (now : Z) (jid : string) (ls : list LineInput) (n : Z)
    (affected : list string) (s : Store)
    : result LedgerError (Store * list string) :=
  match ls with
  | [] => Ok (s, affected)
  | line :: rest =>
      let n := n + 1 in
      do s1 <- applyLineAtomic now s line;
      let s2 := appendLedgerEntry now s1 jid n line in
      applyLines now jid rest n (set_add (accountId line) affected) s2
  end.

(** What one call reads from outside the store: the clock (the dates
    read during one call are taken equal), and whether the chaos hook fires
    ([CHAOS_PROB] and the random draw). *)
Record Env := { now : Z; chaos : bool }.

Definition chaosMaybe (env : Env) : result LedgerError unit :=
  if chaos env then Err ChaosFailure else Ok tt.

(** [s.trim()], over the ASCII white space characters (blank, tab, line
    feed, vertical tab, form feed, carriage return). *)
Definition is_space (c : ascii) : bool :=
  match c with
  | " " | "009" | "010" | "011" | "012" | "013" => true
  | _ => false
  end%char.

Fixpoint trim_start (s : string) : string :=
  match s with
  | String c r => if is_space c then trim_start r else s
  | EmptyString => EmptyString
  end.

Fixpoint trim_end (s : string) : string :=
  match s with
  | EmptyString => EmptyString
  | String c r =>
      match trim_end r with
      | EmptyString => if is_space c then EmptyString else String c EmptyString
      | r' => String c r'
      end
  end.

Definition trim (s : string) : string := trim_end (trim_start s).

Definition is_upper (c : ascii) : bool :=
  (65 <=? nat_of_ascii c)%nat && (nat_of_ascii c <=? 90)%nat.

(** [/^[A-Z]{3}$/.test(code)]. *)
Definition isCurrencyCode (code : string) : bool :=
  match code with
  | String a (String b (String c EmptyString)) => is_upper a && is_upper b && is_upper c
  | _ => false
  end.

Definition LineSchema_parse (l : LineInput) : result LedgerError LineInput :=
  if negb (nonempty (accountId l)) then Err (ValidationError "accountId")
  else if negb (isCurrencyCode (currency (amount_ l))) then Err (ValidationError "amount.currency")
  else
    let a := trim (amount (amount_ l)) in
    if negb (re_decimal (Some 2%nat) a) then Err (ValidationError "amount.amount")
    else Ok {| accountId := accountId l; fromBucket := fromBucket l;
               toBucket := toBucket l; side := side l;
               amount_ := {| currency := currency (amount_ l); amount := a |};
               transition := transition l |}.

Fixpoint parse_lines (ls : list LineInput) : result LedgerError (list LineInput) :=
  match ls with
  | [] => Ok []
  | l :: rest =>
      do l' <- LineSchema_parse l;
      do rest' <- parse_lines rest;
      Ok (l' :: rest')
  end.

(** [JournalSchema.parse] on an input that already has the fields and
    enum values of a journal; any other input is a [ZodError] before the
    store is reached. Zod reports every issue; the first one is kept. *)
Definition JournalSchema_parse (input : JournalInput) : result LedgerError JournalInput :=
  if negb (nonempty (journalId input)) then Err (ValidationError "journalId")
  else if negb (nonempty (idempotencyKey input)) then Err (ValidationError "idempotencyKey")
  else if (List.length (lines input) <? 2)%nat then Err (ValidationError "lines")
  else
    do ls <- parse_lines (lines input);
    Ok {| journalId := journalId input;
          idempotencyKey := idempotencyKey input; lines := ls |}.

Definition preflightValidate (parsed : JournalInput) : result LedgerError unit :=
  match lines parsed with
  | [] => Err EmptyJournal
  | _ =>
      do _ <- validateAllTransitions (lines parsed);
      do _ <- assertSingleCurrency (lines parsed);
      assertBalanced (lines parsed)
  end.

(** The callback given to [session.withTransaction]. Every read and
    write in it passes [{ session }], so it acts on the store as the
    session sees it. It returns the journal found by the idempotency probe,
    if any, and that store. *)
Definition postJournal_tx (env : Env) (parsed : JournalInput) (s : Store)
    : result LedgerError (option JournalDoc * Store) :=
  match findExistingJournal s parsed with
  | Some existing => Ok (Some existing, s)
  | None =>
      do s1 <- createJournalHeader (now env) s parsed;
      do '(s2, affectedAccounts) <-
         applyLines (now env) (journalId parsed) (lines parsed) 0 [] s1;
      do _ <- assertNoNegativeBuckets s2 affectedAccounts;
      let s3 := enqueueOutboxPosted (now env) s2 (journalId parsed) in
      let s4 := markJournalPosted s3 (journalId parsed) in
      do _ <- chaosMaybe env;
      Ok (None, s4)
  end.

(** A transaction commits the store its callback reached, or aborts and
    leaves the store as it was. *)
Definition withTransaction {A} (body : Store -> result LedgerError (A * Store))
    (s : Store) : result LedgerError A * Store :=
  match body s with
  | Ok (a, s') => (Ok a, s')
  | Err e => (Err e, s)
  end.

Record PostJournalResult := { ok : bool; res_journalId : string }.

Definition postJournal (env : Env) (s : Store) (input : JournalInput)
    : result LedgerError PostJournalResult * Store :=
  match JournalSchema_parse input with
  | Err e => (Err e, s)
  | Ok parsed =>
      match preflightValidate parsed with
      | Err e => (Err e, s)
      | Ok _ =>
          match withTransaction (postJournal_tx env parsed) s with
          | (Ok already, s') =>
              (Ok {| ok := true;
                     res_journalId :=
                       match already with
                       | Some existing => j_journalId existing
                       | None => journalId parsed
                       end |}, s')
          | (Err err, s') => (Err err, s')
          end
      end
  end.

(** ** Outbox dispatcher: [src/services/outboxService.ts] *)

Inductive OutboxError :=
| MarkSentNoMatch
| ScheduleRetryNotFound
| DispatchFailed.

#[global] Instance OutboxDoc_eq_dec : EqDecision OutboxDoc.
Proof. solve_decision. Defined.

Definition set_outbox (s : Store) (o : list OutboxDoc) : Store :=
  {| accounts := accounts s; journals := journals s;
     ledger_entries := ledger_entries s; outbox := o |}.

(** [sort = { nextAttemptAt: 1, createdAt: 1, _id: 1 }]. *)
Definition sorts_before (a b : OutboxDoc) : bool :=
  (nextAttemptAt a <? nextAttemptAt b)
  || ((nextAttemptAt a =? nextAttemptAt b)
      && ((ob_createdAt a <? ob_createdAt b)
          || ((ob_createdAt a =? ob_createdAt b) && (ob_id a <? ob_id b)%N))).

Fixpoint first_sorted (l : list OutboxDoc) : option OutboxDoc :=
  match l with
  | [] => None
  | d :: r =>
      match first_sorted r with
      | Some m => if sorts_before m d then Some m else Some d
      | None => Some d
      end
  end.

Definition is_due (now : Z) (d : OutboxDoc) : bool :=
  bool_decide (status d = ob_pending) && (nextAttemptAt d <=? now).

Definition set_processing (now : Z) (d : OutboxDoc) : OutboxDoc :=
  {| ob_id := ob_id d; ob_journalId := ob_journalId d; topic := topic d;
     payload := payload d; status := ob_processing; attempts := attempts d;
     nextAttemptAt := nextAttemptAt d; ob_createdAt := ob_createdAt d;
     ob_updatedAt := now |}.

(** [findOneAndUpdate(filter, update, { sort, returnDocument: "after" })]. *)
Definition claimOne (now : Z) (s : Store) : option OutboxDoc * Store :=
  match first_sorted (filter (fun d => is_due now d = true) (outbox s)) with
  | None => (None, s)
  | Some d =>
      (Some (set_processing now d),
       set_outbox s (update_first (fun x => bool_decide (x = d))
                                  (set_processing now) (outbox s)))
  end.

Definition set_sent (now : Z) (d : OutboxDoc) : OutboxDoc :=
  {| ob_id := ob_id d; ob_journalId := ob_journalId d; topic := topic d;
     payload := payload d; status := ob_sent; attempts := attempts d + 1;
     nextAttemptAt := nextAttemptAt d; ob_createdAt := ob_createdAt d;
     ob_updatedAt := now |}.

Definition markSent (now : Z) (s : Store) (id : N) : result OutboxError Store :=
  let p := fun d => (ob_id d =? id)%N && bool_decide (status d = ob_processing) in
  if existsb p (outbox s)
  then Ok (set_outbox s (update_first p (set_sent now) (outbox s)))
  else Err MarkSentNoMatch.

(** [Math.min(maxBackoffMs, base * Math.pow(2, attempts - 1))] with
    [base = 500], for [attempts >= 1] (the stored count starts at 0 and is
    only incremented). *)
Definition retryDelayMs (attempts maxBackoffMs : Z) : Z :=
  Z.min maxBackoffMs (500 * 2 ^ (attempts - 1)).

Definition set_retry (now next : Z) (d : OutboxDoc) : OutboxDoc :=
  {| ob_id := ob_id d; ob_journalId := ob_journalId d; topic := topic d;
     payload := payload d; status := ob_pending; attempts := attempts d + 1;
     nextAttemptAt := next; ob_createdAt := ob_createdAt d;
     ob_updatedAt := now |}.

Definition scheduleRetry (now : Z) (s : Store) (doc : OutboxDoc) (maxBackoffMs : Z)
    : result OutboxError Store :=
  let attempts := attempts doc + 1 in
  let delayMs := retryDelayMs attempts maxBackoffMs in
  let next := now + delayMs in
  let p := fun d => (ob_id d =? ob_id doc)%N in
  if existsb p (outbox s)
  then Ok (set_outbox s (update_first p (set_retry now next) (outbox s)))
  else Err ScheduleRetryNotFound.

(** [computeBackoffMs], which no function of the service calls. [r] is the
    draw of [Math.random()], in [0, 1). *)
Definition computeBackoffMs (attempts maxBackoffMs : Z) (r : Q) : Z :=
  let base := Z.min (2 ^ Z.min attempts 10 * 100) maxBackoffMs in
  let jitter := Qfloor (r * (inject_Z base * (2 # 10))) in
  Z.min (base + jitter) maxBackoffMs.

Record OutboxProcessResult := {
  attempted : Z;
  sent : Z;
  retried : Z;
  res_pending : Z;
  pendingRetries : Z
}.

Definition countQueue (now : Z) (s : Store) : Z * Z :=
  (Z.of_nat (List.length (filter (fun d => is_due now d = true) (outbox s))),
   Z.of_nat (List.length
     (filter (fun d => (bool_decide (status d = ob_pending)
                        && (now <? nextAttemptAt d)) = true) (outbox s)))).

(** The batch loop. [clock i] is the time read in iteration [i] and
    [dispatch i doc] tells whether [dispatchEvent] returned. An error of
    [markSent] is caught by the same [catch] as a failed dispatch. *)
Fixpoint processOutbox_loop (maxBatch : nat) (i : nat) (clock : nat -> Z)
    (dispatch : nat -> OutboxDoc -> bool) (maxBackoffMs : Z) (s : Store)
    (stats : Z * Z * Z) : result OutboxError (Store * (Z * Z * Z)) :=
  match maxBatch with
  | O => Ok (s, stats)
  | S n =>
      match claimOne (clock i) s with
      | (None, _) => Ok (s, stats)
      | (Some doc, s1) =>
          let '(att, snt, ret) := stats in
          let tried :=
            if dispatch i doc then markSent (clock i) s1 (ob_id doc)
            else Err DispatchFailed in
          match tried with
          | Ok s2 =>
              processOutbox_loop n (S i) clock dispatch maxBackoffMs s2
                                 (att + 1, snt + 1, ret)
          | Err _ =>
              do s2 <- scheduleRetry (clock i) s1 doc maxBackoffMs;
              processOutbox_loop n (S i) clock dispatch maxBackoffMs s2
                                 (att + 1, snt, ret + 1)
          end
      end
  end.

Definition processOutbox (maxBatch : nat) (clock : nat -> Z)
    (dispatch : nat -> OutboxDoc -> bool) (maxBackoffMs : Z) (s : Store)
    : result OutboxError (OutboxProcessResult * Store) :=
  do '(s', (att, snt, ret)) <-
     processOutbox_loop maxBatch 0 clock dispatch maxBackoffMs s (0, 0, 0);
  let '(p, pr) := countQueue (clock maxBatch) s' in
  Ok ({| attempted := att; sent := snt; retried := ret;
         res_pending := p; pendingRetries := pr |}, s').

(** ** Notions used to state the properties *)

(** The audit entries a journal appends, numbered from [n + 1]. *)
Fixpoint ledger_entries_of (now : Z) (jid : string) (ls : list LineInput) (n : Z)
    : list LedgerEntryDoc :=
  match ls with
  | [] => []
  | line :: rest =>
      {| le_journalId := jid; lineNo := n + 1; le_accountId := accountId line;
         le_fromBucket := fromBucket line; le_toBucket := toBucket line;
         le_side := side line; le_transition := transition line;
         le_amount := amount (amount_ line);
         le_currency := currency (amount_ line);
         le_createdAt := now |}
      :: ledger_entries_of now jid rest (n + 1)
  end.

Definition posted_header (now : Z) (parsed : JournalInput) : JournalDoc :=
  {| j_journalId := journalId parsed; j_idempotencyKey := idempotencyKey parsed;
     j_lines := lines parsed; j_status := journal_posted; j_createdAt := now |}.

Definition pending_header (now : Z) (parsed : JournalInput) : JournalDoc :=
  {| j_journalId := journalId parsed; j_idempotencyKey := idempotencyKey parsed;
     j_lines := lines parsed; j_status := journal_pending; j_createdAt := now |}.

Definition posted_outbox_item (now : Z) (jid : string) (items : list OutboxDoc)
    : OutboxDoc :=
  {| ob_id := fresh_ob_id items; ob_journalId := jid;
     topic := "LedgerEvent.Posted"; payload := jid;
     status := ob_pending; attempts := 0; nextAttemptAt := now;
     ob_createdAt := now; ob_updatedAt := now |}.

(** The store a fresh posting starts its lines from: the header is in. *)
Definition with_header (now : Z) (s : Store) (parsed : JournalInput) : Store :=
  {| accounts := accounts s;
     journals := journals s ++ [pending_header now parsed];
     ledger_entries := ledger_entries s; outbox := outbox s |}.

(** The store a fresh posting commits. *)
Definition committed (env : Env) (parsed : JournalInput) (s2 : Store) : Store :=
  markJournalPosted (enqueueOutboxPosted (now env) s2 (journalId parsed))
                    (journalId parsed).




(** The buckets of an account, all zero before its first posting. *)
Definition buckets_of (s : Store) (id : string) : Buckets :=
  match accounts s !! id with
  | Some doc => buckets doc
  | None => zero_buckets
  end.


(** Sequential calls with one body. *)
Fixpoint postJournal_seq (envs : list Env) (s : Store) (input : JournalInput)
    : list (result LedgerError PostJournalResult) * Store :=
  match envs with
  | [] => ([], s)
  | env :: rest =>
      let '(r, s1) := postJournal env s input in
      let '(rs, s2) := postJournal_seq rest s1 input in
      (r :: rs, s2)
  end.

(** Sequential calls with any bodies; the results are dropped. *)
Fixpoint post_all (calls : list (Env * JournalInput)) (s : Store) : Store :=
  match calls with
  | [] => s
  | (env, input) :: rest => post_all rest (snd (postJournal env s input))
  end.


(** ** Concrete stores and journals, after the scenarios of the test suite *)

Definition usd_account (avail : Q) : AccountDoc :=
  {| acc_currency := "USD";
     buckets := {| b_available := avail; b_pending := 0; b_escrow := 0; b_outflow := 0 |};
     acc_createdAt := 0; acc_updatedAt := None; lastTxHint := None |}.

Definition usd_line (id : string) (fb tb : option Bucket) (sd : Side)
    (amt : string) (t : Transition) : LineInput :=
  {| accountId := id; fromBucket := fb; toBucket := tb; side := sd;
     amount_ := {| currency := "USD"; amount := amt |}; transition := t |}.

Definition store_of (accts : gmap string AccountDoc) : Store :=
  {| accounts := accts; journals := []; ledger_entries := []; outbox := [] |}.

(** Two accounts [A] and [B] holding 100 each, and a reserve and lock of 10. *)
Definition store_AB : Store :=
  store_of (<["A" := usd_account 100]> (<["B" := usd_account 100]> ∅)).

Definition journal_AB : JournalInput :=
  {| journalId := "J-0002"; idempotencyKey := "idem-dup-1";
     lines := [ usd_line "A" (Some available) (Some pending) debit "10" reserve;
                usd_line "B" (Some available) (Some escrow) credit "10" lock ] |}.

Definition env_at (t : Z) : Env := {| now := t; chaos := false |}.

(** [store_AB] once [journal_AB] has been posted at time 1. *)
Definition store_AB_posted : Store :=
  snd (postJournal (env_at 1) store_AB journal_AB).




(** An outbox with one item in the given state. *)
Definition outbox_item (st : OutboxStatus) (n next : Z) : OutboxDoc :=
  {| ob_id := 7; ob_journalId := "J-OB-1"; topic := "LedgerEvent.Posted";
     payload := "J-OB-1"; status := st; attempts := n; nextAttemptAt := next;
     ob_createdAt := 0; ob_updatedAt := 0 |}.

Definition store_outbox (st : OutboxStatus) (n next : Z) : Store :=
  {| accounts := ∅; journals := []; ledger_entries := [];
     outbox := [outbox_item st n next] |}.


Definition line_lock : LineInput :=
  usd_line "B" (Some available) (Some escrow) credit "10" lock.

Definition line_bucketless : LineInput :=
  usd_line "X" None None debit "1" finalize.

(** The chaos hook firing. *)
Definition env_chaos (t : Z) : Env := {| now := t; chaos := true |}.

(** An account too low for a reserve of 5. *)
Definition store_LOW : Store :=
  store_of (<["LOW" := usd_account 3]> (<["POOL" := usd_account 100]> ∅)).

Definition journal_LOW : JournalInput :=
  {| journalId := "J-GUARD-1"; idempotencyKey := "idem-guard-1";
     lines := [ usd_line "LOW" (Some available) (Some pending) debit "5" reserve;
                usd_line "POOL" (Some available) (Some escrow) credit "5" lock ] |}.

(** Three due items, the earliest first. *)
Definition due_item (id : N) (jid : string) (next : Z) : OutboxDoc :=
  {| ob_id := id; ob_journalId := jid; topic := "LedgerEvent.Posted";
     payload := jid; status := ob_pending; attempts := 0; nextAttemptAt := next;
     ob_createdAt := 0; ob_updatedAt := 0 |}.

Definition store_three_due : Store :=
  {| accounts := ∅; journals := []; ledger_entries := [];
     outbox := [ due_item 3 "J3" (-1000); due_item 1 "J1" (-3000);
                 due_item 2 "J2" (-2000) ] |}.

(** ** More of the bucket state machine: [src/domain/stateMachine.ts] *)

(** [STATE_GRAPH[b][t]], the quick adjacency view. *)
Definition STATE_GRAPH (b : Bucket) (t : Transition) : option Bucket :=
  match b, t with
  | available, reserve => Some pending
  | pending, lock => Some escrow
  | pending, release => Some available
  | escrow, finalize => Some outflow
  | escrow, revert => Some available
  | _, _ => None
  end.

(** [rule.from === from]: an array is never strictly equal to a string. *)
Definition strict_equals (e : Expected) (b : Bucket) : bool :=
  match e with
  | One x => bool_decide (x = b)
  | Many _ => false
  end.

Definition isValidTransitionBuckets (t : Transition) (fb tb : option Bucket) : bool :=
  match fb, tb with
  | Some f, Some g =>
      let rule := getRule t in
      strict_equals (from rule) f && strict_equals (to rule) g
  | _, _ => false
  end.

#[global] Instance Bucket_countable : Countable Bucket.
Proof.
  refine (inj_countable'
            (fun b => match b with
                      | available => 0 | pending => 1 | escrow => 2 | outflow => 3
                      end)%nat
            (fun n => match n with
                      | 0 => available | 1 => pending | 2 => escrow | _ => outflow
                      end)%nat _).
  intros []; reflexivity.
Defined.




(** ** Notions used to state further properties *)


(** What preflight and the schema require of the lines of a journal. *)
Definition journal_wellformed (ls : list LineInput) : Prop :=
  (2 <= List.length ls)%nat /\
  Forall (fun l => re_decimal (Some 2%nat) (amount (amount_ l)) = true) ls /\
  Forall (fun l => validateTransition l = Ok tt) ls /\
  (exists c, Forall (fun l => currency (amount_ l) = c) ls) /\
  sum_signed_minor ls = 0.

(** Every journal header of the store is well-formed. *)
Definition journals_wellformed (s : Store) : Prop :=
  forall h, In h (journals s) -> journal_wellformed (j_lines h).


(** The ASCII digit of a value between 0 and 9. *)
Definition digit_char (d : Z) : ascii := ascii_of_nat (48 + Z.to_nat d).

(** The canonical decimal of a number of minor units: what
    [normalizeAmountString] returns for every amount of that value. *)
Definition format_minor (c : Z) : string :=
  let q := c / 100 in
  let r := c mod 100 in
  if r =? 0 then String_of_bigint q
  else String_of_bigint q
       ++ String "."%char
            (String (digit_char (r / 10)) (String (digit_char (r mod 10)) EmptyString)).

(** A line that a transition rule with a single [from] accepts, and a lock
    whose [from] is one of two. *)
Definition line_reserve : LineInput :=
  usd_line "A" (Some available) (Some pending) debit "10" reserve.

Definition line_bad_from : LineInput :=
  usd_line "A" (Some escrow) (Some pending) debit "10" reserve.

Definition line_eur : LineInput :=
  {| accountId := "B"; fromBucket := Some available; toBucket := Some escrow;
     side := credit; amount_ := {| currency := "EUR"; amount := "10" |};
     transition := lock |}.


(** The errors preflight can end with. *)
Definition preflight_error (e : LedgerError) : Prop :=
  match e with
  | MissingBucket _ _ | InvalidBucket _ _ _ | CurrencyMismatch | JournalNotBalanced => True
  | _ => False
  end.


(** A journal that does not balance. *)
Definition journal_unbalanced : JournalInput :=
  {| journalId := "J-UNBAL-1"; idempotencyKey := "idem-dup-1";
     lines := [ usd_line "A" (Some available) (Some pending) debit "10" reserve;
                usd_line "B" (Some available) (Some escrow) credit "9" lock ] |}.

(** ** Notions used to state properties of the dispatcher *)

(** [b] is item [a] after dispatcher updates: the same identity and
    content, and at least as many attempts. *)
Definition same_item (a b : OutboxDoc) : Prop :=
  ob_id b = ob_id a /\ ob_journalId b = ob_journalId a /\
  topic b = topic a /\ payload b = payload a /\
  ob_createdAt b = ob_createdAt a /\ attempts a <= attempts b.

(** [a] comes strictly before [b] in the order
    [(nextAttemptAt, createdAt, _id)]. *)
Definition claim_order_lt (a b : OutboxDoc) : Prop :=
  nextAttemptAt a < nextAttemptAt b
  \/ (nextAttemptAt a = nextAttemptAt b
      /\ (ob_createdAt a < ob_createdAt b
          \/ (ob_createdAt a = ob_createdAt b /\ (ob_id a < ob_id b)%N))).

(** The number of items a claim at [now] can pick. *)
Definition due_count (now : Z) (l : list OutboxDoc) : nat :=
  List.length (List.filter (is_due now) l).

(** [s'] is [s] with some outbox items updated. *)
Definition outbox_only (s s' : Store) : Prop :=
  accounts s' = accounts s /\ journals s' = journals s /\
  ledger_entries s' = ledger_entries s /\
  Forall2 same_item (outbox s) (outbox s').


(** ** [accountHistory]: [src/services/journalService.ts] *)

(** An item of the history; [timestamp] is the date that [toISOString]
    prints. *)
Record HistoryItem := {
  h_transition : Transition;
  h_amount : string;
  h_timestamp : Z
}.

Record AccountHistory := {
  ah_accountId : string;
  ah_currency : string;
  history : list HistoryItem
}.

Inductive HistoryError := AccountIdRequired.

(** The [query]: [{ accountId }], with [currency] when one is given and it
    is not the empty string ([if (currency)]). *)
Definition history_query (id : string) (cur : option string)
    (e : LedgerEntryDoc) : bool :=
  String.eqb (le_accountId e) id &&
  match cur with
  | Some c => if nonempty c then String.eqb (le_currency e) c else true
  | None => true
  end.

(** [.sort({ createdAt: 1 })]: by date; entries of one date are left in
    the order of insertion. *)
Fixpoint insert_by_createdAt (e : LedgerEntryDoc) (l : list LedgerEntryDoc)
    : list LedgerEntryDoc :=
  match l with
  | [] => [e]
  | x :: r =>
      if le_createdAt e <=? le_createdAt x then e :: x :: r
      else x :: insert_by_createdAt e r
  end.

Definition sort_by_createdAt (l : list LedgerEntryDoc) : list LedgerEntryDoc :=
  fold_right insert_by_createdAt [] l.

Definition history_item (e : LedgerEntryDoc) : HistoryItem :=
  {| h_transition := le_transition e; h_amount := le_amount e;
     h_timestamp := le_createdAt e |}.

Definition accountHistory (s : Store) (id : string) (cur : option string)
    : result HistoryError AccountHistory :=
  if negb (nonempty id) then Err AccountIdRequired
  else
    let items :=
      sort_by_createdAt (List.filter (history_query id cur) (ledger_entries s)) in
    (* currency ?? items[0]?.currency ?? "USD" *)
    let resolvedCurrency :=
      match cur with
      | Some c => c
      | None => match items with
                | i :: _ => le_currency i
                | [] => "USD"
                end
      end in
    Ok {| ah_accountId := id; ah_currency := resolvedCurrency;
          history := map history_item items |}.

(** The audit entry of line [line], numbered [k], of journal [jid]. *)
Definition entry_for (now : Z) (jid : string) (k : Z) (line : LineInput)
    : LedgerEntryDoc :=
  {| le_journalId := jid; lineNo := k; le_accountId := accountId line;
     le_fromBucket := fromBucket line; le_toBucket := toBucket line;
     le_side := side line; le_transition := transition line;
     le_amount := amount (amount_ line);
     le_currency := currency (amount_ line);
     le_createdAt := now |}.

(** The history item of a line posted at [now]. *)
Definition item_of_line (now : Z) (line : LineInput) : HistoryItem :=
  {| h_transition := transition line; h_amount := amount (amount_ line);
     h_timestamp := now |}.


(** The outbox as the poster and the dispatcher keep it: items with
    distinct [_id]s and attempt counts that are not negative. *)
Definition outbox_wellformed (s : Store) : Prop :=
  NoDup (map ob_id (outbox s)) /\
  forall d, In d (outbox s) -> 0 <= attempts d.

(** * Amounts *)

Module AmountFacts.

(** Replaces [digit_val c], for a literal character [c], by its value. *)
Ltac eval_digit_val :=
  repeat match goal with
         | |- context [digit_val ?c] =>
             is_ground c;
             let v := eval vm_compute in (digit_val c) in
             change (digit_val c) with v
         end.

Lemma is_digit_not_dot c : is_digit c = true -> Ascii.eqb c "."%char = false.
Proof.
  destruct c as [[] [] [] [] [] [] [] []]; simpl; intros H; try discriminate; reflexivity.
Qed.

Lemma of_uint_acc_value d : forall p,
  Z.pos (Pos.of_uint_acc d p) = uint_value_acc d (Z.pos p).
Proof.
  induction d; intros p; simpl; try reflexivity;
    rewrite IHd; f_equal; lia.
Qed.

Lemma of_uint_value d : Z.of_N (N.of_uint d) = uint_value_acc d 0.
Proof.
  unfold N.of_uint.
  induction d; simpl; try reflexivity; try apply IHd;
    rewrite of_uint_acc_value; reflexivity.
Qed.

Lemma uint_of_string_digits s :
  all_digits s = true ->
  exists d, NilEmpty.uint_of_string s = Some d /\
            forall acc, uint_value_acc d acc = digits_value_acc s acc.
Proof.
  induction s as [|c r IH]; simpl; intros H.
  - exists Decimal.Nil. split; [reflexivity | intros; reflexivity].
  - apply andb_prop in H as [Hc Hr].
    destruct (IH Hr) as (d & Hd & Hv). rewrite Hd.
    destruct c as [[] [] [] [] [] [] [] []]; simpl in Hc; try discriminate;
      simpl; eexists; (split; [reflexivity |]); intros acc; simpl;
      rewrite Hv; f_equal;
      match goal with |- context [digit_val ?c] =>
        let v := eval vm_compute in (digit_val c) in
        change (digit_val c) with v end; lia.
Qed.

Lemma BigInt_digits s :
  all_digits s = true -> BigInt s = Some (digits_value s).
Proof.
  intros H. destruct (uint_of_string_digits s H) as (d & Hd & Hv).
  unfold BigInt, digits_value. rewrite Hd, of_uint_value, Hv. reflexivity.
Qed.

Lemma string_of_uint_digits d :
  all_digits (NilEmpty.string_of_uint d) = true.
Proof. induction d; simpl; auto. Qed.

Lemma to_uint_normal n : Decimal.unorm (N.to_uint n) = N.to_uint n.
Proof.
  rewrite <- (DecimalN.Unsigned.of_to n) at 2.
  now rewrite DecimalN.Unsigned.to_of.
Qed.

Lemma to_uint_nonnil n : N.to_uint n <> Decimal.Nil.
Proof. rewrite <- to_uint_normal. apply DecimalFacts.unorm_nonnil. Qed.

Lemma String_of_bigint_eq n :
  String_of_bigint n = NilEmpty.string_of_uint (N.to_uint (Z.to_N n)).
Proof.
  unfold String_of_bigint, NilZero.string_of_uint.
  pose proof (to_uint_nonnil (Z.to_N n)).
  destruct (N.to_uint (Z.to_N n)); congruence.
Qed.

Lemma String_of_bigint_digits n : all_digits (String_of_bigint n) = true.
Proof. rewrite String_of_bigint_eq. apply string_of_uint_digits. Qed.

Lemma String_of_bigint_nonempty n : nonempty (String_of_bigint n) = true.
Proof.
  rewrite String_of_bigint_eq.
  pose proof (to_uint_nonnil (Z.to_N n)).
  destruct (N.to_uint (Z.to_N n)); simpl; congruence.
Qed.

Lemma BigInt_String_of_bigint n :
  0 <= n -> BigInt (String_of_bigint n) = Some n.
Proof.
  intros Hn. rewrite String_of_bigint_eq. unfold BigInt.
  rewrite NilEmpty.usu, DecimalN.Unsigned.of_to.
  f_equal. lia.
Qed.

Lemma String_of_bigint_no_leading_zero n :
  no_leading_zero (String_of_bigint n) = true.
Proof.
  rewrite String_of_bigint_eq.
  pose proof (to_uint_normal (Z.to_N n)) as Hn.
  unfold Decimal.unorm in Hn.
  pose proof (DecimalFacts.nzhead_nonzero (N.to_uint (Z.to_N n))) as Hz.
  destruct (Decimal.nzhead (N.to_uint (Z.to_N n))) eqn:E;
    rewrite <- Hn; try reflexivity.
  exfalso. eapply Hz. reflexivity.
Qed.

Lemma digits_value_acc_nonneg s : forall acc,
  all_digits s = true -> 0 <= acc -> 0 <= digits_value_acc s acc.
Proof.
  induction s as [|c r IH]; simpl; intros acc H Hacc; [assumption|].
  apply andb_prop in H as [Hc Hr]. apply IH; [assumption|].
  destruct c as [[] [] [] [] [] [] [] []]; simpl in Hc; try discriminate;
    match goal with |- context [digit_val ?c] =>
      let v := eval vm_compute in (digit_val c) in
      change (digit_val c) with v end; lia.
Qed.

Lemma digits_value_nonneg s : all_digits s = true -> 0 <= digits_value s.
Proof. intros H. apply digits_value_acc_nonneg; [assumption | lia]. Qed.

(** *** Shapes accepted by the two regular expressions *)

Lemma span_digits_all s :
  all_digits s = true -> span_digits s = (s, EmptyString).
Proof.
  induction s as [|c r IH]; simpl; intros H; [reflexivity|].
  apply andb_prop in H as [Hc Hr]. rewrite Hc, (IH Hr). reflexivity.
Qed.

Lemma span_digits_dot i f :
  all_digits i = true ->
  span_digits (i ++ String "."%char f) = (i, String "."%char f).
Proof.
  induction i as [|c r IH]; simpl; intros H; [reflexivity|].
  apply andb_prop in H as [Hc Hr]. rewrite Hc, (IH Hr). reflexivity.
Qed.

Lemma span_digits_spec s : forall i rest,
  span_digits s = (i, rest) -> s = i ++ rest /\ all_digits i = true.
Proof.
  induction s as [|c r IH]; simpl; intros i rest H.
  - inversion H; subst. split; reflexivity.
  - destruct (is_digit c) eqn:Hc.
    + destruct (span_digits r) as [d rest'] eqn:E. inversion H; subst.
      destruct (IH _ _ eq_refl) as [-> Hd]. simpl. rewrite Hc, Hd. split; reflexivity.
    + inversion H; subst. split; reflexivity.
Qed.

Lemma append_nil_l (s : string) : EmptyString ++ s = s.
Proof. reflexivity. Qed.

Lemma append_cons c (s t : string) : String c s ++ t = String c (s ++ t).
Proof. reflexivity. Qed.

Lemma append_empty_r (s : string) : s ++ EmptyString = s.
Proof.
  induction s as [|c s IH]; [reflexivity|]. now rewrite append_cons, IH.
Qed.

Lemma append_assoc (a b c : string) : (a ++ b) ++ c = a ++ (b ++ c).
Proof.
  induction a as [|x a IH]; [reflexivity|]. now rewrite !append_cons, IH.
Qed.

Lemma re_decimal_shape max s :
  re_decimal max s = true -> decimal_shape max s.
Proof.
  unfold re_decimal. destruct (span_digits s) as [i rest] eqn:E.
  apply span_digits_spec in E as [-> Hi].
  intros H. apply andb_prop in H as [Hne H].
  destruct rest as [|c f].
  - rewrite append_empty_r. now apply shape_int.
  - destruct (Ascii.eqb_spec c "."%char) as [-> | Hc].
    + apply andb_prop in H as [H Hm]. apply andb_prop in H as [Hnf Hf].
      eapply shape_frac; eauto.
      destruct max; [now apply Nat.leb_le in Hm | exact I].
    + exfalso.
      destruct c as [[] [] [] [] [] [] [] []]; try discriminate H.
      now apply Hc.
Qed.

Lemma shape_re_decimal max s :
  decimal_shape max s -> re_decimal max s = true.
Proof.
  intros [Hd Hne | i f -> Hi Hni Hf Hnf Hm]; unfold re_decimal.
  - now rewrite (span_digits_all _ Hd), Hne.
  - rewrite (span_digits_dot _ _ Hi), Hni, Hnf, Hf. simpl.
    destruct max; [now apply Nat.leb_le | reflexivity].
Qed.

Lemma split_dot_aux_digits s : forall cur,
  all_digits s = true -> split_dot_aux cur s = [cur ++ s].
Proof.
  induction s as [|c r IH]; simpl; intros cur H.
  - now rewrite append_empty_r.
  - apply andb_prop in H as [Hc Hr].
    rewrite (is_digit_not_dot _ Hc), (IH _ Hr), append_assoc. reflexivity.
Qed.

Lemma split_dot_digits s : all_digits s = true -> split_dot s = [s].
Proof. intros H. unfold split_dot. now rewrite split_dot_aux_digits. Qed.

Lemma split_dot_aux_frac i f : forall cur,
  all_digits i = true -> all_digits f = true ->
  split_dot_aux cur (i ++ String "."%char f) = [cur ++ i; f].
Proof.
  induction i as [|c r IH]; simpl; intros cur Hi Hf.
  - rewrite append_empty_r. f_equal. now apply split_dot_aux_digits.
  - apply andb_prop in Hi as [Hc Hr].
    rewrite (is_digit_not_dot _ Hc), (IH _ Hr Hf), append_assoc. reflexivity.
Qed.

Lemma split_dot_frac i f :
  all_digits i = true -> all_digits f = true ->
  split_dot (i ++ String "."%char f) = [i; f].
Proof. intros Hi Hf. unfold split_dot. now rewrite split_dot_aux_frac. Qed.

(** *** What [normalizeAmountString] returns on each shape *)

Lemma normalize_unmatched s :
  re_decimal None s = false -> normalizeAmountString s = s.
Proof. intros H. unfold normalizeAmountString. now rewrite H. Qed.

Lemma normalize_int s :
  all_digits s = true -> nonempty s = true ->
  normalizeAmountString s = String_of_bigint (digits_value s).
Proof.
  intros Hd Hne. unfold normalizeAmountString.
  rewrite (shape_re_decimal None s (shape_int _ _ Hd Hne)). simpl.
  rewrite (split_dot_digits _ Hd). simpl.
  now rewrite (BigInt_digits _ Hd).
Qed.

Lemma digit_head_not_dot00 c r :
  is_digit c = true -> String.eqb (String c r) ".00" = false.
Proof.
  intros Hc. apply String.eqb_neq. intros E. inversion E; subst. discriminate Hc.
Qed.

Lemma strip_dot00_digits p : all_digits p = true -> strip_dot00 p = p.
Proof.
  induction p as [|a p IH]; [reflexivity|]. intros H.
  apply andb_prop in H as [Ha Hp].
  cbn [strip_dot00]. now rewrite (digit_head_not_dot00 _ _ Ha), (IH Hp).
Qed.

Lemma strip_dot00_keep i p :
  all_digits i = true -> all_digits p = true -> p <> "00" ->
  strip_dot00 (i ++ String "."%char p) = i ++ String "."%char p.
Proof.
  intros Hi Hd Hp. induction i as [|c r IH].
  - rewrite append_nil_l. cbn [strip_dot00].
    destruct (String.eqb_spec (String "."%char p) ".00") as [E|_].
    { exfalso. apply Hp. now inversion E. }
    now rewrite (strip_dot00_digits _ Hd).
  - apply andb_prop in Hi as [Hc Hr].
    rewrite append_cons. cbn [strip_dot00].
    now rewrite (digit_head_not_dot00 _ _ Hc), (IH Hr).
Qed.

Lemma slice_0_2_digits f : all_digits f = true -> all_digits (slice_0_2 f) = true.
Proof.
  destruct f as [|a [|b r]]; simpl; auto.
  intros H. apply andb_prop in H as [Ha H]. apply andb_prop in H as [Hb _].
  now rewrite Ha, Hb.
Qed.

Lemma slice_0_2_nonempty f : nonempty f = true -> nonempty (slice_0_2 f) = true.
Proof. now destruct f as [|a [|b r]]. Qed.

Lemma padEnd_2_0_digits f : all_digits f = true -> all_digits (padEnd_2_0 f) = true.
Proof.
  destruct f as [|a [|b r]]; simpl; auto.
Qed.

Lemma padEnd_not_00 f :
  nonempty f = true -> re_zeros_1_2 f = false -> padEnd_2_0 f <> "00".
Proof.
  unfold re_zeros_1_2. intros Hne H. apply orb_false_elim in H as [H1 H2].
  apply String.eqb_neq in H1, H2.
  destruct f as [|a [|b r]]; simpl; try discriminate; try assumption.
  intros E. apply H1. now inversion E.
Qed.

Lemma normalize_frac i f :
  all_digits i = true -> nonempty i = true ->
  all_digits f = true -> nonempty f = true ->
  normalizeAmountString (i ++ String "."%char f) =
    if re_zeros_1_2 (slice_0_2 f)
    then String_of_bigint (digits_value i)
    else String_of_bigint (digits_value i) ++ String "."%char (padEnd_2_0 (slice_0_2 f)).
Proof.
  intros Hi Hni Hf Hnf. unfold normalizeAmountString.
  assert (Hs : decimal_shape None (i ++ String "."%char f))
    by (eapply shape_frac; eauto).
  rewrite (shape_re_decimal _ _ Hs). cbn [negb].
  rewrite (split_dot_frac _ _ Hi Hf). cbn [destructure2].
  rewrite (BigInt_digits _ Hi), Hnf, (slice_0_2_nonempty _ Hnf). cbn [negb orb].
  destruct (re_zeros_1_2 (slice_0_2 f)) eqn:Hz; [reflexivity|].
  apply strip_dot00_keep.
  - apply String_of_bigint_digits.
  - now apply padEnd_2_0_digits, slice_0_2_digits.
  - apply padEnd_not_00; [now apply slice_0_2_nonempty | assumption].
Qed.

(** *** [cents] on a normalized amount *)

Lemma cents_when_int str v :
  0 <= v ->
  normalizeAmountString str = String_of_bigint v ->
  cents str = Ok (v * 100).
Proof.
  intros Hv Hn. unfold cents. rewrite Hn.
  pose proof (String_of_bigint_digits v) as Hd.
  pose proof (String_of_bigint_nonempty v) as Hne.
  rewrite (shape_re_decimal _ _ (shape_int (Some 2%nat) _ Hd Hne)). cbn [negb].
  rewrite (split_dot_digits _ Hd). cbn [destructure2 nonempty].
  rewrite (BigInt_String_of_bigint _ Hv).
  change (BigInt (slice_0_2 (padEnd_2_0 "0"))) with (Some 0).
  f_equal. lia.
Qed.

Lemma cents_when_frac str v a b :
  0 <= v -> is_digit a = true -> is_digit b = true ->
  normalizeAmountString str =
    String_of_bigint v ++ String "."%char (String a (String b EmptyString)) ->
  cents str = Ok (v * 100 + (10 * digit_val a + digit_val b)).
Proof.
  intros Hv Ha Hb Hn. unfold cents. rewrite Hn.
  pose proof (String_of_bigint_digits v) as Hd.
  pose proof (String_of_bigint_nonempty v) as Hne.
  assert (Hp : all_digits (String a (String b EmptyString)) = true)
    by (simpl; now rewrite Ha, Hb).
  assert (Hs : decimal_shape (Some 2%nat)
                 (String_of_bigint v ++ String "."%char (String a (String b EmptyString)))).
  { eapply shape_frac; eauto. }
  rewrite (shape_re_decimal _ _ Hs). cbn [negb].
  rewrite (split_dot_frac _ _ Hd Hp). cbn [destructure2 nonempty padEnd_2_0 slice_0_2].
  rewrite (BigInt_String_of_bigint _ Hv), (BigInt_digits _ Hp).
  reflexivity.
Qed.

(** On every amount of the valid shape, [cents] returns the value in
    minor units and does not throw. *)
Lemma cents_valid s :
  re_decimal (Some 2%nat) s = true -> cents s = Ok (toMinor_spec s).
Proof.
  intros H. apply re_decimal_shape in H.
  destruct H as [Hd Hne | i f -> Hi Hni Hf Hnf Hm].
  - rewrite (cents_when_int s (digits_value s)).
    + unfold toMinor_spec. rewrite (span_digits_all _ Hd). f_equal. lia.
    + now apply digits_value_nonneg.
    + now apply normalize_int.
  - pose proof (digits_value_nonneg _ Hi) as Hv.
    pose proof (normalize_frac i f Hi Hni Hf Hnf) as Hn.
    unfold toMinor_spec. rewrite (span_digits_dot _ _ Hi).
    destruct f as [|a [|b [|c r]]]; try discriminate Hnf.
    + (* one fraction digit *)
      simpl in Hf. rewrite andb_true_r in Hf.
      cbn [slice_0_2] in Hn.
      destruct (re_zeros_1_2 (String a EmptyString)) eqn:Hz.
      * rewrite (cents_when_int _ _ Hv Hn). f_equal.
        unfold re_zeros_1_2 in Hz. apply orb_prop in Hz as [Hz|Hz];
          apply String.eqb_eq in Hz; inversion Hz; subst.
        eval_digit_val. lia.
      * cbn [padEnd_2_0] in Hn.
        rewrite (cents_when_frac _ _ a "0"%char Hv Hf eq_refl Hn). f_equal.
        eval_digit_val. lia.
    + (* two fraction digits *)
      simpl in Hf. apply andb_prop in Hf as [Ha Hb]. rewrite andb_true_r in Hb.
      cbn [slice_0_2] in Hn.
      destruct (re_zeros_1_2 (String a (String b EmptyString))) eqn:Hz.
      * rewrite (cents_when_int _ _ Hv Hn). f_equal.
        unfold re_zeros_1_2 in Hz. apply orb_prop in Hz as [Hz|Hz];
          apply String.eqb_eq in Hz; inversion Hz; subst.
        eval_digit_val. lia.
      * cbn [padEnd_2_0] in Hn.
        rewrite (cents_when_frac _ _ a b Hv Ha Hb Hn). f_equal. lia.
    + simpl in Hm. lia.
Qed.

Lemma assertBalanced_loop_valid ls : forall acc,
  Forall (fun l => re_decimal (Some 2%nat) (amount (amount_ l)) = true) ls ->
  assertBalanced_loop ls acc = Ok (acc + sum_signed_minor ls).
Proof.
  induction ls as [|l rest IH]; intros acc Hall.
  - simpl. f_equal. unfold sum_signed_minor. simpl. lia.
  - inversion Hall as [|? ? Hl Hrest]; subst.
    cbn [assertBalanced_loop]. rewrite (cents_valid _ Hl). cbn [rbind].
    rewrite (IH _ Hrest). f_equal.
    unfold sum_signed_minor, signed_minor. cbn [map fold_right].
    destruct (side l); lia.
Qed.

(** *** Canonical forms *)

Lemma digits_value_String_of_bigint v :
  0 <= v -> digits_value (String_of_bigint v) = v.
Proof.
  intros Hv.
  pose proof (BigInt_digits _ (String_of_bigint_digits v)) as H.
  rewrite (BigInt_String_of_bigint _ Hv) in H. congruence.
Qed.

Lemma canonical_int v : is_canonical (String_of_bigint v) = true.
Proof.
  unfold is_canonical.
  rewrite (span_digits_all _ (String_of_bigint_digits v)).
  now rewrite String_of_bigint_nonempty, String_of_bigint_no_leading_zero.
Qed.

Lemma canonical_frac v a b :
  is_digit a = true -> is_digit b = true ->
  String a (String b EmptyString) <> "00" ->
  is_canonical (String_of_bigint v ++ String "."%char (String a (String b EmptyString))) = true.
Proof.
  intros Ha Hb Hne. unfold is_canonical.
  rewrite (span_digits_dot _ _ (String_of_bigint_digits v)).
  rewrite String_of_bigint_nonempty, String_of_bigint_no_leading_zero, Ha, Hb.
  apply String.eqb_neq in Hne. now rewrite Hne.
Qed.

Lemma toMinor_spec_int v : 0 <= v -> toMinor_spec (String_of_bigint v) = 100 * v.
Proof.
  intros Hv. unfold toMinor_spec.
  rewrite (span_digits_all _ (String_of_bigint_digits v)).
  rewrite (digits_value_String_of_bigint _ Hv). lia.
Qed.

Lemma toMinor_spec_frac v a b :
  0 <= v ->
  toMinor_spec (String_of_bigint v ++ String "."%char (String a (String b EmptyString)))
  = 100 * v + (10 * digit_val a + digit_val b).
Proof.
  intros Hv. unfold toMinor_spec.
  rewrite (span_digits_dot _ _ (String_of_bigint_digits v)).
  now rewrite (digits_value_String_of_bigint _ Hv).
Qed.

Lemma normalize_valid s :
  re_decimal (Some 2%nat) s = true ->
  is_canonical (normalizeAmountString s) = true /\
  toMinor_spec (normalizeAmountString s) = toMinor_spec s.
Proof.
  intros H. apply re_decimal_shape in H.
  destruct H as [Hd Hne | i f -> Hi Hni Hf Hnf Hm].
  - rewrite (normalize_int _ Hd Hne). split; [apply canonical_int|].
    rewrite (toMinor_spec_int _ (digits_value_nonneg _ Hd)).
    unfold toMinor_spec. rewrite (span_digits_all _ Hd). lia.
  - pose proof (digits_value_nonneg _ Hi) as Hv.
    rewrite (normalize_frac i f Hi Hni Hf Hnf).
    unfold toMinor_spec at 2. rewrite (span_digits_dot _ _ Hi).
    destruct f as [|a [|b [|c r]]]; try discriminate Hnf; [| |simpl in Hm; lia].
    + simpl in Hf. rewrite andb_true_r in Hf. cbn [slice_0_2].
      destruct (re_zeros_1_2 (String a EmptyString)) eqn:Hz.
      * split; [apply canonical_int|]. rewrite (toMinor_spec_int _ Hv).
        unfold re_zeros_1_2 in Hz. apply orb_prop in Hz as [Hz|Hz];
          apply String.eqb_eq in Hz; inversion Hz; subst.
        eval_digit_val. lia.
      * cbn [padEnd_2_0]. split.
        -- apply canonical_frac; auto.
           apply (padEnd_not_00 (String a EmptyString)); auto.
        -- rewrite (toMinor_spec_frac _ _ _ Hv).
           eval_digit_val. lia.
    + simpl in Hf. apply andb_prop in Hf as [Ha Hb]. rewrite andb_true_r in Hb.
      cbn [slice_0_2].
      destruct (re_zeros_1_2 (String a (String b EmptyString))) eqn:Hz.
      * split; [apply canonical_int|]. rewrite (toMinor_spec_int _ Hv).
        unfold re_zeros_1_2 in Hz. apply orb_prop in Hz as [Hz|Hz];
          apply String.eqb_eq in Hz; inversion Hz; subst.
        eval_digit_val. lia.
      * cbn [padEnd_2_0]. split.
        -- apply canonical_frac; auto.
           apply (padEnd_not_00 (String a (String b EmptyString))); auto.
        -- now rewrite (toMinor_spec_frac _ _ _ Hv).
Qed.

Lemma slice_0_2_idem f : slice_0_2 (slice_0_2 f) = slice_0_2 f.
Proof. now destruct f as [|a [|b r]]. Qed.

Lemma normalize_truncates i f :
  all_digits i = true -> nonempty i = true ->
  all_digits f = true -> nonempty f = true ->
  normalizeAmountString (i ++ String "."%char f) =
  normalizeAmountString (i ++ String "."%char (slice_0_2 f)).
Proof.
  intros Hi Hni Hf Hnf.
  rewrite (normalize_frac i f Hi Hni Hf Hnf).
  rewrite (normalize_frac i (slice_0_2 f) Hi Hni
             (slice_0_2_digits _ Hf) (slice_0_2_nonempty _ Hnf)).
  now rewrite slice_0_2_idem.
Qed.

End AmountFacts.

(** * The journal poster *)

Module JournalFacts.

(** *** Buckets *)





(** *** One line *)



(** What a successful [applyLineAtomic] did. *)
Lemma applyLineAtomic_ok now s line s' :
  applyLineAtomic now s line = Ok s' ->
  exists amt doc doc',
    Number_ (amount (amount_ line)) = Some amt /\
    (0 <= amt)%Q /\
    ensureAccount now (accountId line) (currency (amount_ line)) (accounts s)
      !! accountId line = Some doc /\
    s' = set_accounts s
           (<[accountId line := doc']>
              (ensureAccount now (accountId line) (currency (amount_ line)) (accounts s))) /\
    ((is_noop line = true /\ buckets doc' = buckets doc)
     \/ (is_noop line = false /\ guard_matches (accountId line) line amt doc = true /\
         buckets doc' = apply_inc (fromBucket line) (toBucket line) amt (buckets doc))).
Proof.
  unfold applyLineAtomic. intros H.
  destruct (Number_ (amount (amount_ line))) as [amt|]; [|discriminate].
  destruct (Qle_bool 0 amt) eqn:Hpos; [|discriminate]. cbn [negb] in H.
  apply Qle_bool_iff in Hpos.
  destruct (ensureAccount now (accountId line) (currency (amount_ line)) (accounts s)
              !! accountId line) as [doc|] eqn:Hdoc; [|discriminate].
  destruct (is_noop line) eqn:Hnoop.
  - inversion H; subst. do 3 eexists. repeat (split; [reflexivity || eassumption|]).
    left. split; reflexivity || assumption.
  - destruct (guard_matches (accountId line) line amt doc) eqn:Hg; [|discriminate].
    inversion H; subst. do 3 eexists. repeat (split; [reflexivity || eassumption|]).
    right. repeat split; reflexivity || assumption.
Qed.

Lemma applyLineAtomic_frame now s line s' :
  applyLineAtomic now s line = Ok s' ->
  journals s' = journals s /\ ledger_entries s' = ledger_entries s /\
  outbox s' = outbox s.
Proof.
  intros H. apply applyLineAtomic_ok in H as (amt & doc & doc' & _ & _ & _ & -> & _).
  repeat split.
Qed.




(** *** All lines *)

Lemma applyLines_frame now jid ls : forall n aff s s' aff',
  applyLines now jid ls n aff s = Ok (s', aff') ->
  journals s' = journals s /\ outbox s' = outbox s /\
  ledger_entries s' = (ledger_entries s ++ ledger_entries_of now jid ls n)%list.
Proof.
  induction ls as [|line rest IH]; intros n aff s s' aff' H; cbn [applyLines] in H.
  - inversion H; subst. cbn [ledger_entries_of]. now rewrite app_nil_r.
  - destruct (applyLineAtomic now s line) as [s1|] eqn:E1; [|discriminate].
    cbn [rbind] in H. apply IH in H as (Hj & Ho & Hl).
    apply applyLineAtomic_frame in E1 as (Hj1 & Hl1 & Ho1).
    cbn [appendLedgerEntry journals outbox ledger_entries] in Hj, Ho, Hl.
    rewrite Hj, Ho, Hl, Hj1, Ho1, Hl1. repeat split.
    cbn [ledger_entries_of]. now rewrite <- app_assoc.
Qed.


(** The sweep, by itself, establishes non-negativity of the accounts it
    is given. *)
Lemma first_negative_none b : first_negative b = None -> nonneg_buckets b.
Proof.
  unfold first_negative. intros H k.
  assert (Hin : In k [available; pending; escrow; outflow])
    by (destruct k; simpl; tauto).
  pose proof (find_none _ _ H k Hin) as Hk. cbn beta in Hk.
  apply negb_false_iff in Hk. now apply Qle_bool_iff.
Qed.

Lemma assertNoNegativeBuckets_ok s ids :
  assertNoNegativeBuckets s ids = Ok tt ->
  forall id doc, In id ids -> accounts s !! id = Some doc ->
                 is_overdraft id = false -> nonneg_buckets (buckets doc).
Proof.
  induction ids as [|i rest IH]; intros H id doc Hin Hl Hov; [destruct Hin|].
  cbn [assertNoNegativeBuckets] in H.
  destruct Hin as [->|Hin].
  - rewrite Hl, Hov in H.
    destruct (first_negative (buckets doc)) eqn:E; [discriminate|].
    now apply first_negative_none.
  - destruct (accounts s !! i) as [d|]; [|eapply IH; eauto].
    destruct (is_overdraft i); [eapply IH; eauto|].
    destruct (first_negative (buckets d)); [discriminate|]. eapply IH; eauto.
Qed.

(** *** The transaction *)

Lemma find_none_existsb {A} (p : A -> bool) l :
  List.find p l = None -> existsb p l = false.
Proof.
  induction l as [|x r IH]; simpl; [reflexivity|].
  destruct (p x); [discriminate|]. exact IH.
Qed.

Lemma update_first_none {A} (p : A -> bool) f l :
  existsb p l = false -> update_first p f l = l.
Proof.
  induction l as [|x r IH]; simpl; [reflexivity|].
  destruct (p x); [discriminate|]. intros H. now rewrite IH.
Qed.

Lemma update_first_app_last {A} (p : A -> bool) f l x :
  existsb p l = false -> p x = true ->
  update_first p f (l ++ [x])%list = (l ++ [f x])%list.
Proof.
  induction l as [|y r IH]; simpl; intros Hl Hx.
  - now rewrite Hx.
  - destruct (p y); [discriminate|]. now rewrite IH.
Qed.


Lemma existsb_weaken {A} (p q : A -> bool) l :
  (forall x, p x = true -> q x = true) ->
  existsb q l = false -> existsb p l = false.
Proof.
  intros Hpq. induction l as [|y r IH]; simpl; [reflexivity|].
  intros H. apply orb_false_elim in H as [Hy Hr].
  destruct (p y) eqn:E; [apply Hpq in E; congruence|]. now apply IH.
Qed.

Lemma postJournal_tx_cases env parsed s :
  match postJournal_tx env parsed s with
  | Err _ => True
  | Ok (Some existing, s') =>
      findExistingJournal s parsed = Some existing /\ s' = s
  | Ok (None, s') =>
      findExistingJournal s parsed = None /\
      exists s2 aff,
        applyLines (now env) (journalId parsed) (lines parsed) 0 []
                   (with_header (now env) s parsed) = Ok (s2, aff) /\
        assertNoNegativeBuckets s2 aff = Ok tt /\
        chaos env = false /\
        s' = committed env parsed s2
  end.
Proof.
  unfold postJournal_tx.
  destruct (findExistingJournal s parsed) as [ex|] eqn:Hf; [now split|].
  unfold createJournalHeader.
  unfold findExistingJournal in Hf. rewrite (find_none_existsb _ _ Hf). cbn [rbind].
  fold (pending_header (now env) parsed). fold (with_header (now env) s parsed).
  destruct (applyLines _ _ _ _ _ _) as [[s2 aff]|] eqn:Ha; [|exact I]. cbn [rbind].
  destruct (assertNoNegativeBuckets s2 aff) as [[]|] eqn:Hs; [|exact I]. cbn [rbind].
  unfold chaosMaybe. destruct (chaos env) eqn:Hc; [exact I|]. cbn [rbind].
  split; [reflexivity|]. exists s2, aff. repeat split; assumption.
Qed.


Lemma committed_journals env parsed s s2 :
  findExistingJournal s parsed = None ->
  journals s2 = journals (with_header (now env) s parsed) ->
  journals (committed env parsed s2) =
  (journals s ++ [posted_header (now env) parsed])%list.
Proof.
  intros Hf Hj. unfold committed, markJournalPosted, enqueueOutboxPosted.
  cbn [journals]. rewrite Hj. cbn [with_header journals].
  rewrite update_first_app_last.
  - reflexivity.
  - apply existsb_weaken with (q := journal_matches parsed).
    + intros x Hx. unfold journal_matches. rewrite Hx. apply orb_true_r.
    + now apply find_none_existsb.
  - cbn. apply String.eqb_refl.
Qed.

(** What [postJournal] returns, and the store it leaves. *)
Lemma postJournal_cases env s input :
  match postJournal env s input with
  | (Err _, s') => s' = s
  | (Ok res, s') =>
      exists parsed,
        JournalSchema_parse input = Ok parsed /\
        preflightValidate parsed = Ok tt /\
        ((exists existing,
            findExistingJournal s parsed = Some existing /\ s' = s /\
            res = {| ok := true; res_journalId := j_journalId existing |})
         \/
         (findExistingJournal s parsed = None /\
          res = {| ok := true; res_journalId := journalId parsed |} /\
          exists s2 aff,
            applyLines (now env) (journalId parsed) (lines parsed) 0 []
                       (with_header (now env) s parsed) = Ok (s2, aff) /\
            assertNoNegativeBuckets s2 aff = Ok tt /\
            chaos env = false /\
            s' = committed env parsed s2))
  end.
Proof.
  unfold postJournal.
  destruct (JournalSchema_parse input) as [parsed|] eqn:Hp; [|reflexivity].
  destruct (preflightValidate parsed) as [[]|] eqn:Hv; [|reflexivity].
  unfold withTransaction.
  pose proof (postJournal_tx_cases env parsed s) as Htx.
  destruct (postJournal_tx env parsed s) as [[[ex|] s']|]; [| |reflexivity].
  - destruct Htx as [Hf ->]. exists parsed. split; [reflexivity|]. split; [exact Hv|].
    left. now exists ex.
  - destruct Htx as (Hf & s2 & aff & Ha & Hs & Hc & ->).
    exists parsed. split; [reflexivity|]. split; [exact Hv|].
    right. split; [exact Hf|]. split; [reflexivity|]. now exists s2, aff.
Qed.



(** *** Visibility of a posting *)



(** The store committed by a fresh posting, collection by collection. *)
Lemma committed_collections env parsed s s2 aff :
  findExistingJournal s parsed = None ->
  applyLines (now env) (journalId parsed) (lines parsed) 0 []
             (with_header (now env) s parsed) = Ok (s2, aff) ->
  journals (committed env parsed s2)
    = (journals s ++ [posted_header (now env) parsed])%list /\
  ledger_entries (committed env parsed s2)
    = (ledger_entries s ++
       ledger_entries_of (now env) (journalId parsed) (lines parsed) 0)%list /\
  outbox (committed env parsed s2)
    = (outbox s ++ [posted_outbox_item (now env) (journalId parsed) (outbox s)])%list.
Proof.
  intros Hf Ha. apply applyLines_frame in Ha as (Hj & Ho & Hl).
  split; [now apply committed_journals|].
  split; [exact Hl|]. unfold committed. cbn. now rewrite Ho.
Qed.



(** *** [Number] on a valid amount *)

Lemma Number_valid s :
  re_decimal (Some 2%nat) s = true ->
  exists q, Number_ s = Some q /\ (q * 100 == inject_Z (toMinor_spec s))%Q.
Proof.
  intros H. apply AmountFacts.re_decimal_shape in H.
  destruct H as [Hd Hne | i f -> Hi Hni Hf Hnf Hm]; unfold Number_, toMinor_spec.
  - rewrite (AmountFacts.shape_re_decimal None s (shape_int _ _ Hd Hne)).
    rewrite (AmountFacts.split_dot_digits _ Hd), (AmountFacts.span_digits_all _ Hd).
    cbn [destructure2]. eexists. split; [reflexivity|].
    rewrite Qred_correct. unfold Qeq. cbn. lia.
  - assert (Hs : decimal_shape None (i ++ String "."%char f))
      by (eapply shape_frac; eauto).
    rewrite (AmountFacts.shape_re_decimal _ _ Hs).
    rewrite (AmountFacts.split_dot_frac _ _ Hi Hf), (AmountFacts.span_digits_dot _ _ Hi).
    cbn [destructure2]. eexists. split; [reflexivity|].
    rewrite Qred_correct.
    destruct f as [|a [|b [|c r]]]; try discriminate Hnf; [| |simpl in Hm; lia].
    + unfold Qeq, digits_value. cbn. lia.
    + unfold Qeq, digits_value. cbn. lia.
Qed.

End JournalFacts.

(** * The outbox dispatcher *)

Module OutboxFacts.



Lemma update_first_insert {A} (p : A -> bool) (f : A -> A) (l : list A) :
  existsb p l = true ->
  exists i d, l !! i = Some d /\ p d = true /\
              (forall j e, (j < i)%nat -> l !! j = Some e -> p e = false) /\
              update_first p f l = <[i := f d]> l.
Proof.
  induction l as [|x r IH]; simpl; intros H; [discriminate|].
  destruct (p x) eqn:Hx.
  - exists 0%nat, x. repeat split; auto. intros j e Hj. lia.
  - destruct (IH H) as (i & d & Hl & Hp & Hbefore & Hu).
    exists (S i), d. repeat split; auto.
    + intros [|j] e Hj He; simpl in He.
      * now inversion He; subst.
      * apply (Hbefore j); [lia | exact He].
    + simpl. now rewrite Hu.
Qed.

(** An update whose filter excludes [sent] leaves every sent item as it is. *)
Lemma update_first_keeps (p : OutboxDoc -> bool) f (l : list OutboxDoc) i d :
  (forall x, p x = true -> status x <> ob_sent) ->
  l !! i = Some d -> status d = ob_sent ->
  update_first p f l !! i = Some d.
Proof.
  intros Hp. revert i. induction l as [|x r IH]; intros i Hl Hs; [discriminate|].
  simpl. destruct (p x) eqn:Hx.
  - destruct i as [|i]; simpl in *; [|exact Hl].
    inversion Hl; subst. now apply Hp in Hx.
  - destruct i as [|i]; simpl in *; [exact Hl|]. now apply IH.
Qed.

Lemma first_sorted_in l d : first_sorted l = Some d -> In d l.
Proof.
  revert d. induction l as [|x r IH]; simpl; intros d H; [discriminate|].
  destruct (first_sorted r) as [m|].
  - destruct (sorts_before m x); inversion H; subst; auto.
  - inversion H; subst; auto.
Qed.

Lemma claimOne_keeps_sent now s i d :
  outbox s !! i = Some d -> status d = ob_sent ->
  outbox (snd (claimOne now s)) !! i = Some d.
Proof.
  intros Hl Hs. unfold claimOne.
  destruct (first_sorted _) as [m|] eqn:E; [|exact Hl].
  cbn [snd set_outbox outbox].
  apply update_first_keeps; auto.
  intros x Hx. apply bool_decide_eq_true in Hx. subst x.
  apply first_sorted_in in E. apply list_elem_of_In in E.
  apply list_elem_of_filter in E as [Hdue _].
  unfold is_due in Hdue. apply andb_prop in Hdue as [Hst _].
  apply bool_decide_eq_true in Hst. congruence.
Qed.

Lemma markSent_keeps_sent now s id s' i d :
  markSent now s id = Ok s' ->
  outbox s !! i = Some d -> status d = ob_sent ->
  outbox s' !! i = Some d.
Proof.
  unfold markSent. intros H Hl Hs.
  destruct (existsb _ _); [|discriminate]. inversion H; subst.
  cbn [set_outbox outbox]. apply update_first_keeps; auto.
  intros x Hx. apply andb_prop in Hx as [_ Hx].
  apply bool_decide_eq_true in Hx. congruence.
Qed.

(** *** The batch loop

    [_id] is unique in a collection. Under that condition the loop calls
    [scheduleRetry] only for the item it has just claimed, which is
    [processing], so the loop itself never touches a sent item. *)

Lemma update_first_ids (p : OutboxDoc -> bool) f (l : list OutboxDoc) :
  (forall x, ob_id (f x) = ob_id x) ->
  map ob_id (update_first p f l) = map ob_id l.
Proof.
  intros Hf. induction l as [|x r IH]; [reflexivity|]. simpl.
  destruct (p x); simpl; [now rewrite Hf | now rewrite IH].
Qed.

Lemma update_first_keeps_in (p : OutboxDoc -> bool) f (l : list OutboxDoc) i d :
  (forall x, In x l -> p x = true -> status x <> ob_sent) ->
  l !! i = Some d -> status d = ob_sent ->
  update_first p f l !! i = Some d.
Proof.
  revert i. induction l as [|x r IH]; intros i Hp Hl Hs; [discriminate|].
  simpl. destruct (p x) eqn:Hx.
  - destruct i as [|i]; simpl in *; [|exact Hl].
    inversion Hl; subst. exfalso. apply (Hp d); auto.
  - destruct i as [|i]; simpl in *; [exact Hl|].
    apply IH; auto.
Qed.

Lemma update_first_in (f : OutboxDoc -> OutboxDoc) (l : list OutboxDoc) d :
  In d l -> In (f d) (update_first (fun x => bool_decide (x = d)) f l).
Proof.
  induction l as [|x r IH]; intros Hin; [destruct Hin|]. simpl.
  case_bool_decide as E.
  - subst. now left.
  - destruct Hin as [->|Hin]; [congruence|]. right. now apply IH.
Qed.

Lemma nodup_ids_eq (l : list OutboxDoc) x y :
  NoDup (map ob_id l) -> In x l -> In y l -> ob_id x = ob_id y -> x = y.
Proof.
  induction l as [|z r IH]; intros Hnd Hx Hy Hid; [destruct Hx|].
  simpl in Hnd. apply NoDup_cons in Hnd as [Hz Hnd].
  assert (Hmem : forall w, In w r -> ob_id w <> ob_id z).
  { intros w Hw E. apply Hz. rewrite <- E.
    apply list_elem_of_In. now apply in_map. }
  destruct Hx as [->|Hx], Hy as [->|Hy]; auto.
  - exfalso. symmetry in Hid. now apply (Hmem y).
  - exfalso. now apply (Hmem x).
Qed.

Lemma claimOne_some now s doc s1 :
  claimOne now s = (Some doc, s1) ->
  status doc = ob_processing /\
  In doc (outbox s1) /\
  map ob_id (outbox s1) = map ob_id (outbox s).
Proof.
  unfold claimOne. destruct (first_sorted _) as [m|] eqn:E; [|discriminate].
  intros H. inversion H; subst. cbn [set_outbox outbox].
  split; [reflexivity|]. split.
  - apply update_first_in. apply first_sorted_in in E.
    apply list_elem_of_In in E. apply list_elem_of_filter in E as [_ E].
    now apply list_elem_of_In.
  - now apply update_first_ids.
Qed.

Lemma existsb_in {A} (p : A -> bool) l x : In x l -> p x = true -> existsb p l = true.
Proof. intros Hin Hp. apply existsb_exists. eauto. Qed.

Lemma processOutbox_loop_keeps_sent clock dispatch maxBackoffMs n :
  forall i s stats s' stats',
    NoDup (map ob_id (outbox s)) ->
    processOutbox_loop n i clock dispatch maxBackoffMs s stats = Ok (s', stats') ->
    forall j d, outbox s !! j = Some d -> status d = ob_sent ->
                outbox s' !! j = Some d.
Proof.
  induction n as [|n IH]; intros i s stats s' stats' Hnd H j d Hl Hs.
  - cbn in H. now inversion H; subst.
  - cbn [processOutbox_loop] in H.
    pose proof (claimOne_keeps_sent (clock i) s j d Hl Hs) as Hl1.
    destruct (claimOne (clock i) s) as [[doc|] s1] eqn:Ec;
      [|now inversion H; subst].
    cbn [snd] in Hl1.
    apply claimOne_some in Ec as (Hst & Hin & Hids).
    assert (Hnd1 : NoDup (map ob_id (outbox s1))) by now rewrite Hids.
    destruct stats as [[att snt] ret].
    assert (Hretry : forall s2,
               scheduleRetry (clock i) s1 doc maxBackoffMs = Ok s2 ->
               NoDup (map ob_id (outbox s2)) /\ outbox s2 !! j = Some d).
    { intros s2 Hr. unfold scheduleRetry in Hr.
      destruct (existsb _ (outbox s1)); [|discriminate]. inversion Hr; subst.
      cbn [set_outbox outbox]. split.
      - now rewrite update_first_ids.
      - apply update_first_keeps_in; auto.
        intros x Hx Hp. apply N.eqb_eq in Hp.
        rewrite (nodup_ids_eq _ x doc Hnd1 Hx Hin Hp). congruence. }
    destruct (dispatch i doc).
    + destruct (markSent (clock i) s1 (ob_id doc)) as [s2|e] eqn:Em.
      * apply (IH _ _ _ _ _) with (j := j) (d := d) in H; auto.
        -- unfold markSent in Em. destruct (existsb _ (outbox s1)); [|discriminate].
           inversion Em; subst. cbn [set_outbox outbox].
           now rewrite update_first_ids.
        -- eapply markSent_keeps_sent; eauto.
      * destruct (scheduleRetry (clock i) s1 doc maxBackoffMs) as [s2|] eqn:Er;
          [|discriminate].
        cbn [rbind] in H. destruct (Hretry s2 eq_refl) as [Hnd2 Hl2].
        apply (IH _ _ _ _ _) with (j := j) (d := d) in H; auto.
    + destruct (scheduleRetry (clock i) s1 doc maxBackoffMs) as [s2|] eqn:Er;
        [|discriminate].
      cbn [rbind] in H. destruct (Hretry s2 eq_refl) as [Hnd2 Hl2].
      apply (IH _ _ _ _ _) with (j := j) (d := d) in H; auto.
Qed.

End OutboxFacts.

(** * The scenarios of the test suite, replayed on the embedding *)

Module Scenarios.

(** Idempotent replay: two entries, not four; [A = {90, 10, 0, 0}],
    [B = {90, 0, 10, 0}]. *)
Example replay_twice :
  let s2 := snd (postJournal_seq [env_at 1; env_at 2] store_AB journal_AB) in
  buckets_of s2 "A"
    = {| b_available := 90; b_pending := 10; b_escrow := 0; b_outflow := 0 |} /\
  buckets_of s2 "B"
    = {| b_available := 90; b_pending := 0; b_escrow := 10; b_outflow := 0 |} /\
  map lineNo (ledger_entries s2) = [1; 2] /\
  map status (outbox s2) = [ob_pending] /\
  map j_status (journals s2) = [journal_posted].
Proof. vm_compute. repeat split. Qed.

(** Chaos rollback, then a retry that succeeds. *)
Example chaos_then_retry :
  postJournal (env_chaos 1) store_AB journal_AB = (Err ChaosFailure, store_AB) /\
  fst (postJournal (env_at 2) store_AB journal_AB)
    = Ok {| ok := true; res_journalId := "J-0002" |}.
Proof. vm_compute. repeat split. Qed.

(** Insufficient funds: the guard rejects the line and nothing changes. *)
Example insufficient_funds :
  postJournal (env_at 1) store_LOW journal_LOW
    = (Err (InsufficientFundsOrCurrency "LOW"), store_LOW).
Proof. vm_compute. reflexivity. Qed.

(** Retry with backoff: [attempts = 5], [maxBackoffMs = 1000]. *)
Example outbox_retry :
  processOutbox 1 (fun _ => 0) (fun _ _ => false) 1000 (store_outbox ob_pending 5 (-1))
    = Ok ({| attempted := 1; sent := 0; retried := 1;
             res_pending := 0; pendingRetries := 1 |},
          store_outbox ob_pending 6 1000).
Proof. vm_compute. reflexivity. Qed.

(** Batch ordering: with [maxBatch = 2] the two earliest items are sent. *)
Example batch_order :
  match processOutbox 2 (fun _ => 0) (fun _ _ => true) 60000 store_three_due with
  | Ok (r, s') =>
      sent r = 2 /\
      map (fun d => (ob_journalId d, status d)) (outbox s')
        = [("J3", ob_pending); ("J1", ob_sent); ("J2", ob_sent)]
  | Err _ => False
  end.
Proof. vm_compute. repeat split. Qed.

End Scenarios.

(** * The bucket state machine *)

Module StateMachineFacts.

Lemma validateTransition_noop line :
  fromBucket line = toBucket line -> validateTransition line = Ok tt.
Proof.
  intros H. unfold validateTransition. now rewrite bool_decide_eq_true_2.
Qed.


End StateMachineFacts.

(** * More on amounts *)

Module AmountMore.

Import AmountFacts.

Lemma re_decimal_weaken s :
  re_decimal (Some 2%nat) s = true -> re_decimal None s = true.
Proof.
  intros H. apply re_decimal_shape in H. apply shape_re_decimal.
  destruct H as [Hd Hne | i f -> Hi Hni Hf Hnf _].
  - now apply shape_int.
  - eapply shape_frac; eauto.
Qed.

Lemma cents_unmatched s :
  re_decimal None s = false -> cents s = Err (InvalidAmountString s).
Proof.
  intros H. unfold cents. rewrite (normalize_unmatched _ H).
  destruct (re_decimal (Some 2%nat) s) eqn:E; [|reflexivity].
  apply re_decimal_weaken in E. congruence.
Qed.

(** The first two fraction digits, the second one 0 when there is only one. *)
Lemma two_fraction_digits f :
  all_digits f = true -> nonempty f = true ->
  exists a b, padEnd_2_0 (slice_0_2 f) = String a (String b EmptyString) /\
              is_digit a = true /\ is_digit b = true.
Proof.
  intros Hf Hnf. destruct f as [|a [|b r]]; [discriminate| |].
  - exists a, "0"%char. simpl in Hf. rewrite andb_true_r in Hf. now repeat split.
  - exists a, b. simpl in Hf. apply andb_prop in Hf as [Ha Hf].
    apply andb_prop in Hf as [Hb _]. now repeat split.
Qed.

Lemma zeros_value f :
  nonempty f = true -> re_zeros_1_2 (slice_0_2 f) = true ->
  digits_value (padEnd_2_0 (slice_0_2 f)) = 0.
Proof.
  intros Hnf Hz. unfold re_zeros_1_2 in Hz.
  apply orb_prop in Hz as [Hz|Hz]; apply String.eqb_eq in Hz; now rewrite Hz.
Qed.

Lemma cents_frac i f :
  all_digits i = true -> nonempty i = true ->
  all_digits f = true -> nonempty f = true ->
  cents (i ++ String "."%char f)
  = Ok (digits_value i * 100 + digits_value (padEnd_2_0 (slice_0_2 f))).
Proof.
  intros Hi Hni Hf Hnf.
  pose proof (digits_value_nonneg _ Hi) as Hv.
  pose proof (normalize_frac i f Hi Hni Hf Hnf) as Hn.
  destruct (re_zeros_1_2 (slice_0_2 f)) eqn:Hz.
  - rewrite (cents_when_int _ _ Hv Hn), (zeros_value _ Hnf Hz). f_equal. lia.
  - destruct (two_fraction_digits f Hf Hnf) as (a & b & Hp & Ha & Hb).
    rewrite Hp in Hn |- *.
    rewrite (cents_when_frac _ _ a b Hv Ha Hb Hn). reflexivity.
Qed.

Lemma cents_int s :
  all_digits s = true -> nonempty s = true ->
  cents s = Ok (digits_value s * 100).
Proof.
  intros Hd Hne. apply cents_when_int.
  - now apply digits_value_nonneg.
  - now apply normalize_int.
Qed.

(** *** Idempotence of the normal form *)

Lemma normalize_String_of_bigint v :
  0 <= v -> normalizeAmountString (String_of_bigint v) = String_of_bigint v.
Proof.
  intros Hv.
  rewrite (normalize_int _ (String_of_bigint_digits v) (String_of_bigint_nonempty v)).
  now rewrite (digits_value_String_of_bigint _ Hv).
Qed.

Lemma normalize_canonical_frac v a b :
  0 <= v -> is_digit a = true -> is_digit b = true ->
  String a (String b EmptyString) <> "00" ->
  normalizeAmountString
    (String_of_bigint v ++ String "."%char (String a (String b EmptyString)))
  = String_of_bigint v ++ String "."%char (String a (String b EmptyString)).
Proof.
  intros Hv Ha Hb Hne.
  rewrite normalize_frac.
  - cbn [slice_0_2 padEnd_2_0]. unfold re_zeros_1_2.
    apply String.eqb_neq in Hne. rewrite Hne, orb_false_r.
    replace (String.eqb (String a (String b EmptyString)) "0") with false.
    + now rewrite (digits_value_String_of_bigint _ Hv).
    + symmetry. apply String.eqb_neq. discriminate.
  - apply String_of_bigint_digits.
  - apply String_of_bigint_nonempty.
  - simpl. now rewrite Ha, Hb.
  - reflexivity.
Qed.

Lemma normalize_idempotent s :
  normalizeAmountString (normalizeAmountString s) = normalizeAmountString s.
Proof.
  destruct (re_decimal None s) eqn:E.
  - apply re_decimal_shape in E.
    destruct E as [Hd Hne | i f -> Hi Hni Hf Hnf _].
    + rewrite (normalize_int _ Hd Hne).
      apply normalize_String_of_bigint. now apply digits_value_nonneg.
    + pose proof (digits_value_nonneg _ Hi) as Hv.
      rewrite (normalize_frac i f Hi Hni Hf Hnf).
      destruct (re_zeros_1_2 (slice_0_2 f)) eqn:Hz.
      * now apply normalize_String_of_bigint.
      * destruct (two_fraction_digits f Hf Hnf) as (a & b & Hp & Ha & Hb).
        pose proof (padEnd_not_00 _ (slice_0_2_nonempty _ Hnf) Hz) as Hne.
        rewrite Hp in Hne |- *. now apply normalize_canonical_frac.
  - now rewrite !(normalize_unmatched _ E).
Qed.

(** *** The normal form is a function of the value *)

Lemma digit_val_range a : is_digit a = true -> 0 <= digit_val a <= 9.
Proof.
  destruct a as [[] [] [] [] [] [] [] []]; simpl; intros H; try discriminate;
    eval_digit_val; lia.
Qed.

Lemma digit_char_val a : is_digit a = true -> digit_char (digit_val a) = a.
Proof.
  destruct a as [[] [] [] [] [] [] [] []]; simpl; intros H; try discriminate;
    reflexivity.
Qed.

Lemma digit_val_zero a : is_digit a = true -> digit_val a = 0 -> a = "0"%char.
Proof.
  destruct a as [[] [] [] [] [] [] [] []]; simpl; intros H; try discriminate;
    eval_digit_val; intros E; try reflexivity; discriminate E.
Qed.

Lemma format_minor_int v : 0 <= v -> format_minor (v * 100) = String_of_bigint v.
Proof.
  intros Hv. unfold format_minor.
  rewrite Z.mod_mul by lia. cbn [Z.eqb]. now rewrite Z.div_mul by lia.
Qed.

Lemma format_minor_frac v a b :
  0 <= v -> is_digit a = true -> is_digit b = true ->
  String a (String b EmptyString) <> "00" ->
  format_minor (v * 100 + (10 * digit_val a + digit_val b))
  = String_of_bigint v ++ String "."%char (String a (String b EmptyString)).
Proof.
  intros Hv Ha Hb Hne.
  pose proof (digit_val_range _ Ha) as Ra. pose proof (digit_val_range _ Hb) as Rb.
  unfold format_minor.
  assert (Hq : (v * 100 + (10 * digit_val a + digit_val b)) / 100 = v)
    by (symmetry; apply (Z.div_unique _ 100 v (10 * digit_val a + digit_val b)); lia).
  assert (Hr : (v * 100 + (10 * digit_val a + digit_val b)) mod 100
               = 10 * digit_val a + digit_val b)
    by (symmetry; apply (Z.mod_unique _ 100 v (10 * digit_val a + digit_val b)); lia).
  rewrite Hq, Hr.
  assert (Ha' : (10 * digit_val a + digit_val b) / 10 = digit_val a)
    by (symmetry; apply (Z.div_unique _ 10 (digit_val a) (digit_val b)); lia).
  assert (Hb' : (10 * digit_val a + digit_val b) mod 10 = digit_val b)
    by (symmetry; apply (Z.mod_unique _ 10 (digit_val a) (digit_val b)); lia).
  rewrite Ha', Hb', (digit_char_val _ Ha), (digit_char_val _ Hb).
  destruct (Z.eqb_spec (10 * digit_val a + digit_val b) 0) as [E|_]; [|reflexivity].
  exfalso. apply Hne.
  rewrite (digit_val_zero a Ha) by lia. now rewrite (digit_val_zero b Hb) by lia.
Qed.

Lemma normalize_is_format s c :
  cents s = Ok c -> normalizeAmountString s = format_minor c.
Proof.
  intros Hc. destruct (re_decimal None s) eqn:E.
  2:{ rewrite (cents_unmatched _ E) in Hc. discriminate. }
  apply re_decimal_shape in E.
  destruct E as [Hd Hne | i f -> Hi Hni Hf Hnf _].
  - rewrite (cents_int _ Hd Hne) in Hc. inversion Hc; subst c.
    rewrite (normalize_int _ Hd Hne).
    symmetry. apply format_minor_int. now apply digits_value_nonneg.
  - pose proof (digits_value_nonneg _ Hi) as Hv.
    rewrite (cents_frac i f Hi Hni Hf Hnf) in Hc. inversion Hc; subst c.
    rewrite (normalize_frac i f Hi Hni Hf Hnf).
    destruct (re_zeros_1_2 (slice_0_2 f)) eqn:Hz.
    + rewrite (zeros_value _ Hnf Hz), Z.add_0_r. symmetry. now apply format_minor_int.
    + destruct (two_fraction_digits f Hf Hnf) as (a & b & Hp & Ha & Hb).
      pose proof (padEnd_not_00 _ (slice_0_2_nonempty _ Hnf) Hz) as Hne.
      rewrite Hp in Hne |- *.
      replace (digits_value (String a (String b EmptyString)))
        with (10 * digit_val a + digit_val b) by reflexivity.
      symmetry. now apply format_minor_frac.
Qed.

Lemma cents_decimal_ok s :
  re_decimal None s = true -> exists c, cents s = Ok c /\ 0 <= c.
Proof.
  intros E. apply re_decimal_shape in E.
  destruct E as [Hd Hne | i f -> Hi Hni Hf Hnf _].
  - rewrite (cents_int _ Hd Hne). eexists. split; [reflexivity|].
    pose proof (digits_value_nonneg _ Hd). lia.
  - rewrite (cents_frac i f Hi Hni Hf Hnf). eexists. split; [reflexivity|].
    pose proof (digits_value_nonneg _ Hi).
    pose proof (digits_value_nonneg _
                  (padEnd_2_0_digits _ (slice_0_2_digits _ Hf))). lia.
Qed.

Lemma cents_of_normalized s :
  re_decimal None s = true -> cents (normalizeAmountString s) = cents s.
Proof.
  intros E. apply re_decimal_shape in E.
  destruct E as [Hd Hne | i f -> Hi Hni Hf Hnf _].
  - pose proof (digits_value_nonneg _ Hd) as Hv.
    rewrite (cents_int _ Hd Hne), (normalize_int _ Hd Hne).
    apply cents_when_int; [assumption|]. now apply normalize_String_of_bigint.
  - pose proof (digits_value_nonneg _ Hi) as Hv.
    rewrite (cents_frac i f Hi Hni Hf Hnf), (normalize_frac i f Hi Hni Hf Hnf).
    destruct (re_zeros_1_2 (slice_0_2 f)) eqn:Hz.
    + rewrite (zeros_value _ Hnf Hz), Z.add_0_r.
      apply cents_when_int; [assumption|]. now apply normalize_String_of_bigint.
    + destruct (two_fraction_digits f Hf Hnf) as (a & b & Hp & Ha & Hb).
      pose proof (padEnd_not_00 _ (slice_0_2_nonempty _ Hnf) Hz) as Hne.
      rewrite Hp in Hne |- *.
      rewrite (cents_when_frac _ (digits_value i) a b Hv Ha Hb); [reflexivity|].
      now apply normalize_canonical_frac.
Qed.

Lemma digit_char_facts d :
  0 <= d <= 9 ->
  is_digit (digit_char d) = true /\ digit_val (digit_char d) = d.
Proof.
  intros H.
  assert (E : d = 0 \/ d = 1 \/ d = 2 \/ d = 3 \/ d = 4 \/ d = 5 \/ d = 6
              \/ d = 7 \/ d = 8 \/ d = 9) by lia.
  repeat (destruct E as [->|E]; [split; reflexivity|]). subst. split; reflexivity.
Qed.

Lemma format_minor_fixed c :
  0 <= c ->
  normalizeAmountString (format_minor c) = format_minor c /\
  cents (format_minor c) = Ok c.
Proof.
  intros Hc. unfold format_minor.
  pose proof (Z.div_mod c 100 ltac:(lia)) as Hdm.
  pose proof (Z.mod_pos_bound c 100 ltac:(lia)) as Hr.
  assert (Hq : 0 <= c / 100) by (apply Z.div_pos; lia).
  destruct (Z.eqb_spec (c mod 100) 0) as [E|E].
  - split; [now apply normalize_String_of_bigint|].
    rewrite (cents_when_int _ (c / 100) Hq (normalize_String_of_bigint _ Hq)).
    f_equal. lia.
  - set (r := c mod 100) in *.
    pose proof (Z.div_mod r 10 ltac:(lia)) as Hdm'.
    pose proof (Z.mod_pos_bound r 10 ltac:(lia)) as Hr'.
    assert (Ra : 0 <= r / 10 <= 9).
    { split; [apply Z.div_pos; lia|].
      assert (r / 10 < 10) by (apply Z.div_lt_upper_bound; lia). lia. }
    destruct (digit_char_facts (r / 10) Ra) as [Da Va].
    destruct (digit_char_facts (r mod 10) ltac:(lia)) as [Db Vb].
    assert (Hne : String (digit_char (r / 10))
                    (String (digit_char (r mod 10)) EmptyString) <> "00").
    { intros H. injection H as Ha Hb.
      rewrite Ha in Va. rewrite Hb in Vb.
      change (digit_val "0") with 0 in Va, Vb. lia. }
    pose proof (normalize_canonical_frac (c / 100) _ _ Hq Da Db Hne) as Hn.
    split; [exact Hn|].
    rewrite (cents_when_frac _ (c / 100) _ _ Hq Da Db Hn), Va, Vb.
    f_equal. lia.
Qed.

End AmountMore.

(** ** The account history *)

Module HistoryFacts.
Import JournalFacts.

Lemma insert_by_createdAt_perm e l : Permutation (insert_by_createdAt e l) (e :: l).
Proof.
  induction l as [|x r IH]; cbn [insert_by_createdAt]; [reflexivity|].
  destruct (le_createdAt e <=? le_createdAt x); [reflexivity|].
  rewrite IH. apply perm_swap.
Qed.

Lemma sort_by_createdAt_perm l : Permutation (sort_by_createdAt l) l.
Proof.
  induction l as [|x r IH]; cbn; [reflexivity|].
  fold (sort_by_createdAt r). rewrite insert_by_createdAt_perm. now constructor.
Qed.

Lemma sort_by_createdAt_in l e : In e (sort_by_createdAt l) <-> In e l.
Proof.
  split; apply Permutation_in;
    [apply sort_by_createdAt_perm | symmetry; apply sort_by_createdAt_perm].
Qed.




Lemma history_query_spec id cur e :
  history_query id cur e = true <->
  le_accountId e = id /\
  (forall c, cur = Some c -> c <> "" -> le_currency e = c).
Proof.
  unfold history_query. rewrite andb_true_iff, String.eqb_eq.
  split; intros [Hid Hc]; (split; [exact Hid|]).
  - intros c -> Hne. destruct c as [|a c]; [congruence|]. cbn in Hc.
    now apply String.eqb_eq in Hc.
  - destruct cur as [c|]; [|reflexivity].
    destruct c as [|a c]; [reflexivity|]. cbn. apply String.eqb_eq. now apply Hc.
Qed.

Lemma nonempty_spec s : nonempty s = true <-> s <> "".
Proof. destruct s; cbn; split; congruence. Qed.

(** What [accountHistory] returns, in terms of the entries it read. *)
Lemma accountHistory_ok s id cur :
  id <> "" ->
  exists items,
    accountHistory s id cur
    = Ok {| ah_accountId := id;
            ah_currency := match cur with
                           | Some c => c
                           | None => match items with
                                     | i :: _ => le_currency i
                                     | [] => "USD"
                                     end
                           end;
            history := map history_item items |} /\
    items = sort_by_createdAt (List.filter (history_query id cur) (ledger_entries s)).
Proof.
  intros Hid. apply nonempty_spec in Hid. unfold accountHistory. rewrite Hid.
  cbn [negb]. eexists. split; reflexivity.
Qed.

Lemma ledger_entries_of_in now jid ls : forall n line,
  In line ls -> exists k, In (entry_for now jid k line) (ledger_entries_of now jid ls n).
Proof.
  induction ls as [|l rest IH]; intros n line Hin; [destruct Hin|].
  cbn [ledger_entries_of]. destruct Hin as [->|Hin].
  - exists (n + 1). now left.
  - destruct (IH (n + 1) line Hin) as (k & Hk). exists k. now right.
Qed.

(** A fresh posting appends the entries of its lines. *)
Lemma postJournal_fresh_entries env s input parsed r s' :
  JournalSchema_parse input = Ok parsed ->
  findExistingJournal s parsed = None ->
  postJournal env s input = (Ok r, s') ->
  ledger_entries s'
  = (ledger_entries s
     ++ ledger_entries_of (now env) (journalId parsed) (lines parsed) 0)%list.
Proof.
  intros Hp Hf H. pose proof (postJournal_cases env s input) as Hc.
  rewrite H in Hc. destruct Hc as (parsed' & Hp' & _ & Hcase).
  rewrite Hp in Hp'. inversion Hp'; subst parsed'.
  destruct Hcase as [(ex & Hex & _) | (_ & _ & s2 & aff & Ha & _ & _ & ->)];
    [congruence|].
  now destruct (committed_collections _ _ _ _ _ Hf Ha) as (_ & Hl & _).
Qed.

(** Every call of [postJournal] leaves the audit entries in place and adds
    at their end. *)
Lemma postJournal_appends env s input :
  exists added,
    ledger_entries (snd (postJournal env s input))
    = (ledger_entries s ++ added)%list.
Proof.
  pose proof (postJournal_cases env s input) as Hc.
  destruct (postJournal env s input) as [[r|e] s']; cbn [snd].
  - destruct Hc as (parsed & _ & _ & [(ex & _ & -> & _) |
                      (Hf & _ & s2 & aff & Ha & _ & _ & ->)]).
    + exists []. now rewrite app_nil_r.
    + destruct (committed_collections _ _ _ _ _ Hf Ha) as (_ & Hl & _). eauto.
  - subst. exists []. now rewrite app_nil_r.
Qed.

Lemma post_all_appends calls : forall s,
  exists added, ledger_entries (post_all calls s) = (ledger_entries s ++ added)%list.
Proof.
  induction calls as [|[env input] rest IH]; intros s; cbn [post_all].
  - exists []. now rewrite app_nil_r.
  - destruct (postJournal_appends env s input) as (a1 & H1).
    destruct (IH (snd (postJournal env s input))) as (a2 & H2).
    exists (a1 ++ a2)%list. now rewrite H2, H1, <- app_assoc.
Qed.

Lemma history_grows s s' added id cur :
  ledger_entries s' = (ledger_entries s ++ added)%list ->
  Permutation
    (map history_item
       (sort_by_createdAt (List.filter (history_query id cur) (ledger_entries s'))))
    (map history_item
       (sort_by_createdAt (List.filter (history_query id cur) (ledger_entries s)))
     ++ map history_item (List.filter (history_query id cur) added))%list.
Proof.
  intros ->. rewrite List.filter_app, <- map_app.
  apply Permutation_map. rewrite sort_by_createdAt_perm.
  apply Permutation_app_tail. symmetry. apply sort_by_createdAt_perm.
Qed.

End HistoryFacts.

(** * More on the journal poster *)

Module JournalMore.

Import JournalFacts.

(** *** What the schema and preflight establish *)

Lemma LineSchema_parse_ok l l' :
  LineSchema_parse l = Ok l' ->
  re_decimal (Some 2%nat) (amount (amount_ l')) = true /\
  amount (amount_ l') = trim (amount (amount_ l)) /\
  nonempty (accountId l') = true /\
  isCurrencyCode (currency (amount_ l')) = true /\
  accountId l' = accountId l /\ fromBucket l' = fromBucket l /\
  toBucket l' = toBucket l /\ side l' = side l /\
  currency (amount_ l') = currency (amount_ l) /\ transition l' = transition l.
Proof.
  unfold LineSchema_parse.
  destruct (nonempty (accountId l)) eqn:Ea; [|discriminate].
  destruct (isCurrencyCode (currency (amount_ l))) eqn:Ec; [|discriminate].
  destruct (re_decimal (Some 2%nat) (trim (amount (amount_ l)))) eqn:Er; [|discriminate].
  cbn [negb]. intros H. inversion H; subst. cbn. repeat split; assumption.
Qed.

Lemma parse_lines_ok ls : forall ls',
  parse_lines ls = Ok ls' ->
  Forall2 (fun l l' => LineSchema_parse l = Ok l') ls ls'.
Proof.
  induction ls as [|l rest IH]; intros ls' H; cbn [parse_lines] in H.
  - inversion H; subst. constructor.
  - destruct (LineSchema_parse l) as [l'|] eqn:El; [|discriminate].
    cbn [rbind] in H. destruct (parse_lines rest) as [rest'|]; [|discriminate].
    cbn [rbind] in H. inversion H; subst. constructor; auto.
Qed.

Lemma JournalSchema_parse_ok input parsed :
  JournalSchema_parse input = Ok parsed ->
  journalId parsed = journalId input /\
  idempotencyKey parsed = idempotencyKey input /\
  nonempty (journalId parsed) = true /\
  nonempty (idempotencyKey parsed) = true /\
  (2 <= List.length (lines parsed))%nat /\
  Forall2 (fun l l' => LineSchema_parse l = Ok l') (lines input) (lines parsed).
Proof.
  unfold JournalSchema_parse.
  destruct (nonempty (journalId input)) eqn:Ej; [|discriminate].
  destruct (nonempty (idempotencyKey input)) eqn:Ek; [|discriminate].
  destruct (List.length (lines input) <? 2)%nat eqn:El; [discriminate|].
  cbn [negb]. destruct (parse_lines (lines input)) as [ls|] eqn:Ep; [|discriminate].
  cbn [rbind]. intros H. inversion H; subst. cbn.
  apply parse_lines_ok in Ep.
  repeat split; try assumption.
  apply Nat.ltb_ge in El. now rewrite <- (Forall2_length _ _ _ Ep).
Qed.

Lemma parsed_amounts_valid input parsed :
  JournalSchema_parse input = Ok parsed ->
  Forall (fun l => re_decimal (Some 2%nat) (amount (amount_ l)) = true) (lines parsed).
Proof.
  intros H. apply JournalSchema_parse_ok in H as (_ & _ & _ & _ & _ & H).
  induction H as [|l l' ls ls' Hl _ IH]; constructor; [|exact IH].
  now apply LineSchema_parse_ok in Hl as [Hv _].
Qed.

Lemma validateAllTransitions_ok ls :
  validateAllTransitions ls = Ok tt ->
  Forall (fun l => validateTransition l = Ok tt) ls.
Proof.
  induction ls as [|l rest IH]; [constructor|]. cbn [validateAllTransitions].
  destruct (validateTransition l) as [[]|] eqn:E; [|discriminate]. cbn [rbind].
  intros H. constructor; auto.
Qed.

Lemma assertSingleCurrency_ok ls c :
  assertSingleCurrency ls = Ok c ->
  exists c', Forall (fun l => currency (amount_ l) = c') ls.
Proof.
  destruct ls as [|l0 rest]; [exists c; constructor|]. cbn [assertSingleCurrency].
  destruct (forallb _ (l0 :: rest)) eqn:E; [|discriminate]. intros _.
  exists (currency (amount_ l0)). apply List.Forall_forall. intros x Hx.
  rewrite forallb_forall in E. apply String.eqb_eq. now apply E.
Qed.

Lemma assertBalanced_ok ls :
  Forall (fun l => re_decimal (Some 2%nat) (amount (amount_ l)) = true) ls ->
  assertBalanced ls = Ok tt -> sum_signed_minor ls = 0.
Proof.
  intros Hv. unfold assertBalanced.
  rewrite (AmountFacts.assertBalanced_loop_valid ls 0 Hv). cbn [rbind].
  destruct (Z.eqb_spec (0 + sum_signed_minor ls) 0); [lia | discriminate].
Qed.

Lemma preflight_wellformed input parsed :
  JournalSchema_parse input = Ok parsed ->
  preflightValidate parsed = Ok tt ->
  journal_wellformed (lines parsed).
Proof.
  intros Hp Hv.
  pose proof (parsed_amounts_valid _ _ Hp) as Hamt.
  apply JournalSchema_parse_ok in Hp as (_ & _ & _ & _ & Hlen & _).
  unfold preflightValidate in Hv.
  destruct (lines parsed) as [|l0 rest] eqn:El; [discriminate|].
  destruct (validateAllTransitions (l0 :: rest)) as [[]|] eqn:Et; [|discriminate].
  cbn [rbind] in Hv.
  destruct (assertSingleCurrency (l0 :: rest)) as [c|] eqn:Ec; [|discriminate].
  cbn [rbind] in Hv.
  split; [exact Hlen|]. split; [exact Hamt|].
  split; [now apply validateAllTransitions_ok|].
  split; [now apply assertSingleCurrency_ok with (c := c)|].
  now apply assertBalanced_ok.
Qed.

Lemma postJournal_wellformed env s input :
  journals_wellformed s -> journals_wellformed (snd (postJournal env s input)).
Proof.
  intros Hw. pose proof (postJournal_cases env s input) as H.
  destruct (postJournal env s input) as [[res|e] s']; cbn [snd]; [|now subst].
  destruct H as (parsed & Hp & Hv & [(ex & _ & -> & _) |
                   (Hf & _ & s2 & aff & Ha & _ & _ & ->)]); [exact Hw|].
  destruct (committed_collections _ _ _ _ _ Hf Ha) as (Hj & _ & _).
  intros h Hh. rewrite Hj in Hh. apply in_app_or in Hh as [Hh|[<-|[]]].
  - now apply Hw.
  - cbn [posted_header j_lines]. now apply preflight_wellformed with (input := input).
Qed.

(** *** The total of an account *)








(** *** The sweep *)



(** *** The errors of each step *)

Lemma parse_lines_error ls e :
  parse_lines ls = Err e -> exists path, e = ValidationError path.
Proof.
  induction ls as [|l rest IH]; cbn [parse_lines]; [discriminate|].
  unfold LineSchema_parse at 1.
  destruct (nonempty (accountId l)); cbn [negb rbind];
    [|intros H; inversion H; eauto].
  destruct (isCurrencyCode (currency (amount_ l))); cbn [negb rbind];
    [|intros H; inversion H; eauto].
  destruct (re_decimal (Some 2%nat) (trim (amount (amount_ l)))); cbn [negb rbind];
    [|intros H; inversion H; eauto].
  destruct (parse_lines rest) as [rest'|e']; cbn [rbind]; [discriminate|].
  intros H. inversion H; subst. now apply IH.
Qed.

Lemma JournalSchema_parse_error input e :
  JournalSchema_parse input = Err e -> exists path, e = ValidationError path.
Proof.
  unfold JournalSchema_parse.
  destruct (nonempty (journalId input)); cbn [negb]; [|intros H; inversion H; eauto].
  destruct (nonempty (idempotencyKey input)); cbn [negb];
    [|intros H; inversion H; eauto].
  destruct (List.length (lines input) <? 2)%nat; [intros H; inversion H; eauto|].
  destruct (parse_lines (lines input)) as [ls|e'] eqn:E; cbn [rbind]; [discriminate|].
  intros H. inversion H; subst. now apply parse_lines_error in E.
Qed.

Lemma validateTransition_error line e :
  validateTransition line = Err e -> preflight_error e.
Proof.
  unfold validateTransition. case_bool_decide as Hd; [discriminate|].
  destruct (fromBucket line); [|intros H; now inversion H].
  destruct (toBucket line); [|intros H; now inversion H].
  destruct (negb _); [intros H; now inversion H|].
  destruct (negb _); [intros H; now inversion H | discriminate].
Qed.

Lemma validateAllTransitions_error ls e :
  validateAllTransitions ls = Err e -> preflight_error e.
Proof.
  induction ls as [|l rest IH]; cbn [validateAllTransitions]; [discriminate|].
  destruct (validateTransition l) as [[]|e'] eqn:E; cbn [rbind]; [exact IH|].
  intros H. inversion H; subst. now apply validateTransition_error in E.
Qed.

Lemma preflightValidate_error input parsed e :
  JournalSchema_parse input = Ok parsed ->
  preflightValidate parsed = Err e -> preflight_error e.
Proof.
  intros Hp. pose proof (parsed_amounts_valid _ _ Hp) as Hamt.
  apply JournalSchema_parse_ok in Hp as (_ & _ & _ & _ & Hlen & _).
  unfold preflightValidate.
  destruct (lines parsed) as [|l0 rest] eqn:El; [simpl in Hlen; lia|].
  destruct (validateAllTransitions (l0 :: rest)) as [[]|e'] eqn:Et; cbn [rbind].
  2:{ intros H. inversion H; subst. now apply validateAllTransitions_error in Et. }
  destruct (assertSingleCurrency (l0 :: rest)) as [c|e'] eqn:Ec; cbn [rbind].
  2:{ intros H. inversion H; subst. cbn [assertSingleCurrency] in Ec.
      destruct (forallb _ _); [discriminate|]. now inversion Ec. }
  unfold assertBalanced.
  rewrite (AmountFacts.assertBalanced_loop_valid _ 0 Hamt). cbn [rbind].
  destruct (negb _); [|discriminate]. intros H. now inversion H.
Qed.

Lemma inject_Z_nonneg z : 0 <= z -> (0 <= inject_Z z)%Q.
Proof. intros H. unfold Qle. cbn. lia. Qed.

Lemma Number_valid_nonneg a :
  re_decimal (Some 2%nat) a = true ->
  exists q, Number_ a = Some q /\ (0 <= q)%Q.
Proof.
  intros Hv. destruct (Number_valid a Hv) as (q & Hq & H100).
  exists q. split; [exact Hq|].
  destruct (AmountMore.cents_decimal_ok a (AmountMore.re_decimal_weaken _ Hv))
    as (c & Hc & Hpos).
  rewrite (AmountFacts.cents_valid _ Hv) in Hc. inversion Hc as [Hc'].
  pose proof (inject_Z_nonneg _ Hpos) as Hz. rewrite <- Hc' in Hz.
  rewrite <- H100 in Hz. lra.
Qed.

Lemma applyLineAtomic_error now s line e :
  re_decimal (Some 2%nat) (amount (amount_ line)) = true ->
  applyLineAtomic now s line = Err e ->
  e = InsufficientFundsOrCurrency (accountId line).
Proof.
  intros Hv. destruct (Number_valid_nonneg _ Hv) as (q & Hq & Hpos).
  unfold applyLineAtomic. rewrite Hq.
  apply Qle_bool_iff in Hpos. rewrite Hpos. cbn [negb].
  destruct (ensureAccount _ _ _ _ !! accountId line);
    [|intros H; now inversion H].
  destruct (is_noop line); [discriminate|].
  destruct (guard_matches _ _ _ _); [discriminate|]. intros H. now inversion H.
Qed.

Lemma applyLines_error now jid ls : forall n aff s e,
  Forall (fun l => re_decimal (Some 2%nat) (amount (amount_ l)) = true) ls ->
  applyLines now jid ls n aff s = Err e ->
  exists id, e = InsufficientFundsOrCurrency id.
Proof.
  induction ls as [|line rest IH]; intros n aff s e Hv H; cbn [applyLines] in H;
    [discriminate|].
  inversion Hv as [|? ? Hl Hrest]; subst.
  destruct (applyLineAtomic now s line) as [s1|e1] eqn:E1; cbn [rbind] in H.
  - now apply IH in H.
  - inversion H; subst. apply (applyLineAtomic_error _ _ _ _ Hl) in E1. eauto.
Qed.

Lemma assertNoNegativeBuckets_error s ids e :
  assertNoNegativeBuckets s ids = Err e -> exists k id, e = NegativeBucket k id.
Proof.
  induction ids as [|id rest IH]; cbn [assertNoNegativeBuckets]; [discriminate|].
  destruct (accounts s !! id) as [doc|]; [|exact IH].
  destruct (is_overdraft id); [exact IH|].
  destruct (first_negative (buckets doc)); [|exact IH].
  intros H. inversion H; subst. eauto.
Qed.

(** The error of a call, by the step that raised it. *)
Lemma postJournal_error_cases env s input e s' :
  postJournal env s input = (Err e, s') ->
  (JournalSchema_parse input = Err e /\ exists path, e = ValidationError path)
  \/ (exists parsed, JournalSchema_parse input = Ok parsed /\
                     preflightValidate parsed = Err e /\ preflight_error e)
  \/ (exists id, e = InsufficientFundsOrCurrency id)
  \/ (exists parsed s2 aff k id,
        JournalSchema_parse input = Ok parsed /\
        findExistingJournal s parsed = None /\
        applyLines (now env) (journalId parsed) (lines parsed) 0 []
                   (with_header (now env) s parsed) = Ok (s2, aff) /\
        assertNoNegativeBuckets s2 aff = Err e /\
        e = NegativeBucket k id)
  \/ e = ChaosFailure.
Proof.
  unfold postJournal.
  destruct (JournalSchema_parse input) as [parsed|e0] eqn:Hp.
  2:{ intros H. inversion H; subst. left. split; [reflexivity|].
      now apply JournalSchema_parse_error in Hp. }
  destruct (preflightValidate parsed) as [[]|e0] eqn:Hv.
  2:{ intros H. inversion H; subst. right. left. exists parsed.
      split; [reflexivity|]. split; [exact Hv|].
      now apply preflightValidate_error with (input := input) (parsed := parsed). }
  unfold withTransaction, postJournal_tx.
  destruct (findExistingJournal s parsed) as [ex|] eqn:Hf; [discriminate|].
  unfold createJournalHeader. unfold findExistingJournal in Hf.
  rewrite (find_none_existsb _ _ Hf). cbn [rbind].
  fold (pending_header (now env) parsed). fold (with_header (now env) s parsed).
  destruct (applyLines _ _ _ _ _ _) as [[s2 aff]|e1] eqn:Ha; cbn [rbind].
  2:{ intros H. inversion H; subst. right. right. left.
      eapply applyLines_error; [|exact Ha]. now apply parsed_amounts_valid in Hp. }
  destruct (assertNoNegativeBuckets s2 aff) as [[]|e1] eqn:Hs; cbn [rbind].
  2:{ intros H. inversion H; subst. right. right. right. left.
      destruct (assertNoNegativeBuckets_error _ _ _ Hs) as (k & id & ->).
      exists parsed, s2, aff, k, id. repeat split; assumption. }
  unfold chaosMaybe. destruct (chaos env); cbn [rbind]; [|discriminate].
  intros H. inversion H; subst. now repeat right.
Qed.

(** *** [bucketsDelta] *)


(** *** Parsing a parsed journal *)










(** *** No-op lines *)


End JournalMore.

(** * More on the outbox dispatcher *)

Module OutboxMore.

Import OutboxFacts.

Lemma sorts_before_spec a b :
  sorts_before a b = true <-> claim_order_lt a b.
Proof.
  unfold sorts_before, claim_order_lt.
  rewrite !orb_true_iff, !andb_true_iff, !orb_true_iff, !andb_true_iff.
  rewrite !Z.ltb_lt, !Z.eqb_eq, N.ltb_lt. reflexivity.
Qed.

Lemma sorts_before_false a b :
  sorts_before a b = false <-> ~ claim_order_lt a b.
Proof.
  rewrite <- sorts_before_spec. destruct (sorts_before a b); split; intros H;
    try reflexivity; try discriminate; try (intros E; discriminate E).
  exfalso. now apply H.
Qed.

Lemma first_sorted_min l m :
  first_sorted l = Some m -> forall x, In x l -> ~ claim_order_lt x m.
Proof.
  revert m. induction l as [|d r IH]; intros m H x Hx; [destruct Hx|].
  cbn [first_sorted] in H. destruct (first_sorted r) as [m0|] eqn:E.
  - destruct (sorts_before m0 d) eqn:Hs.
    + inversion H; subst m0. apply sorts_before_spec in Hs.
      destruct Hx as [<-|Hx]; [|now apply IH].
      unfold claim_order_lt in *. lia.
    + inversion H; subst d. apply sorts_before_false in Hs.
      destruct Hx as [<-|Hx]; [unfold claim_order_lt; lia|].
      pose proof (IH m0 eq_refl x Hx) as Hm0.
      unfold claim_order_lt in *. lia.
  - inversion H; subst d. destruct Hx as [<-|Hx]; [unfold claim_order_lt; lia|].
    destruct r; [destruct Hx|]. cbn [first_sorted] in E.
    destruct (first_sorted r) as [m1|]; [destruct (sorts_before m1 o)|]; discriminate.
Qed.

Lemma first_sorted_none l : first_sorted l = None -> l = [].
Proof.
  destruct l as [|d r]; [reflexivity|]. cbn [first_sorted].
  destruct (first_sorted r) as [m|]; [destruct (sorts_before m d)|]; discriminate.
Qed.

Lemma in_filter_due now (l : list OutboxDoc) d :
  In d (filter (fun x => is_due now x = true) l) <-> In d l /\ is_due now d = true.
Proof.
  rewrite <- !list_elem_of_In, list_elem_of_filter. tauto.
Qed.

(** What [claimOne] returns and does. *)
Lemma claimOne_cases now s :
  match claimOne now s with
  | (None, s') =>
      s' = s /\ forall d, In d (outbox s) -> is_due now d = false
  | (Some doc, s') =>
      exists i d,
        outbox s !! i = Some d /\ is_due now d = true /\
        doc = set_processing now d /\
        (forall x, In x (outbox s) -> is_due now x = true -> ~ claim_order_lt x d) /\
        s' = set_outbox s (<[i := doc]> (outbox s))
  end.
Proof.
  unfold claimOne.
  destruct (first_sorted _) as [m|] eqn:E.
  - pose proof (first_sorted_in _ _ E) as Hin. apply in_filter_due in Hin as [Hin Hdue].
    assert (Hex : existsb (fun x => bool_decide (x = m)) (outbox s) = true).
    { apply existsb_exists. exists m. split; [exact Hin|]. now apply bool_decide_eq_true. }
    destruct (update_first_insert _ (set_processing now) _ Hex)
      as (i & d & Hl & Hp & _ & Hu).
    apply bool_decide_eq_true in Hp. subst d.
    exists i, m. split; [exact Hl|]. split; [exact Hdue|]. split; [reflexivity|].
    split; [|now rewrite Hu].
    intros x Hx Hxd. apply (first_sorted_min _ _ E). now apply in_filter_due.
  - split; [reflexivity|]. intros d Hd.
    apply first_sorted_none in E.
    destruct (is_due now d) eqn:Hdue; [|reflexivity].
    assert (Hin : In d (filter (fun x => is_due now x = true) (outbox s)))
      by now apply in_filter_due.
    rewrite E in Hin. destruct Hin.
Qed.

(** *** The loop never throws *)

Lemma scheduleRetry_after_claim now s doc s1 now' m :
  claimOne now s = (Some doc, s1) ->
  exists s2, scheduleRetry now' s1 doc m = Ok s2.
Proof.
  intros H. apply claimOne_some in H as (_ & Hin & _).
  unfold scheduleRetry.
  rewrite (existsb_in _ _ doc Hin) by apply N.eqb_refl. eauto.
Qed.

Lemma processOutbox_loop_ok clock dispatch m n : forall i s att snt ret,
  exists s' att' snt' ret',
    processOutbox_loop n i clock dispatch m s (att, snt, ret)
      = Ok (s', (att', snt', ret')) /\
    att' - att = (snt' - snt) + (ret' - ret) /\
    0 <= snt' - snt /\ 0 <= ret' - ret /\
    att' - att <= Z.of_nat n.
Proof.
  induction n as [|n IH]; intros i s att snt ret.
  - exists s, att, snt, ret. cbn. repeat split; lia.
  - cbn [processOutbox_loop].
    destruct (claimOne (clock i) s) as [[doc|] s1] eqn:Ec.
    2:{ exists s, att, snt, ret. repeat split; lia. }
    destruct (scheduleRetry_after_claim _ _ _ _ (clock i) m Ec) as (sr & Hr).
    destruct (dispatch i doc).
    + destruct (markSent (clock i) s1 (ob_id doc)) as [s2|e].
      * destruct (IH (S i) s2 (att + 1) (snt + 1) ret)
          as (s' & a' & b' & c' & H & H1 & H2 & H3 & H4).
        exists s', a', b', c'. split; [exact H|]. repeat split; lia.
      * rewrite Hr. cbn [rbind].
        destruct (IH (S i) sr (att + 1) snt (ret + 1))
          as (s' & a' & b' & c' & H & H1 & H2 & H3 & H4).
        exists s', a', b', c'. split; [exact H|]. repeat split; lia.
    + rewrite Hr. cbn [rbind].
      destruct (IH (S i) sr (att + 1) snt (ret + 1))
        as (s' & a' & b' & c' & H & H1 & H2 & H3 & H4).
      exists s', a', b', c'. split; [exact H|]. repeat split; lia.
Qed.

(** *** The dispatcher writes the outbox only *)

Lemma same_item_refl a : same_item a a.
Proof. unfold same_item. repeat split; lia. Qed.

Lemma same_item_trans a b c : same_item a b -> same_item b c -> same_item a c.
Proof. unfold same_item. intros (?&?&?&?&?&?) (?&?&?&?&?&?). repeat split; try congruence; lia. Qed.

Lemma update_first_same (p : OutboxDoc -> bool) f (l : list OutboxDoc) :
  (forall x, same_item x (f x)) -> Forall2 same_item l (update_first p f l).
Proof.
  intros Hf. induction l as [|x r IH]; [constructor|]. simpl.
  destruct (p x); constructor; auto.
  - clear IH. induction r; constructor; auto using same_item_refl.
  - apply same_item_refl.
Qed.

Lemma Forall2_same_refl (l : list OutboxDoc) : Forall2 same_item l l.
Proof. induction l; constructor; auto using same_item_refl. Qed.

Lemma Forall2_same_trans (a b c : list OutboxDoc) :
  Forall2 same_item a b -> Forall2 same_item b c -> Forall2 same_item a c.
Proof.
  intros H. revert c. induction H as [|x y l l' Hxy _ IH]; intros c Hc.
  - inversion Hc; subst. constructor.
  - inversion Hc; subst. constructor; [eapply same_item_trans; eauto | now apply IH].
Qed.

Lemma outbox_only_refl s : outbox_only s s.
Proof. repeat split. apply Forall2_same_refl. Qed.

Lemma outbox_only_trans a b c : outbox_only a b -> outbox_only b c -> outbox_only a c.
Proof.
  intros (A1 & A2 & A3 & A4) (B1 & B2 & B3 & B4).
  repeat split; try congruence. eapply Forall2_same_trans; eauto.
Qed.

Lemma set_processing_same now d : same_item d (set_processing now d).
Proof. unfold same_item. cbn. repeat split; lia. Qed.

Lemma set_sent_same now d : same_item d (set_sent now d).
Proof. unfold same_item. cbn. repeat split; lia. Qed.

Lemma set_retry_same now next d : same_item d (set_retry now next d).
Proof. unfold same_item. cbn. repeat split; lia. Qed.

Lemma claimOne_outbox_only now s : outbox_only s (snd (claimOne now s)).
Proof.
  unfold claimOne. destruct (first_sorted _); cbn [snd]; [|apply outbox_only_refl].
  repeat split. cbn [set_outbox outbox].
  apply update_first_same. apply set_processing_same.
Qed.

Lemma markSent_outbox_only now s id s' :
  markSent now s id = Ok s' -> outbox_only s s'.
Proof.
  unfold markSent. destruct (existsb _ _); [|discriminate]. intros H.
  inversion H; subst. repeat split. cbn [set_outbox outbox].
  apply update_first_same. apply set_sent_same.
Qed.

Lemma scheduleRetry_outbox_only now s doc m s' :
  scheduleRetry now s doc m = Ok s' -> outbox_only s s'.
Proof.
  unfold scheduleRetry. destruct (existsb _ _); [|discriminate]. intros H.
  inversion H; subst. repeat split. cbn [set_outbox outbox].
  apply update_first_same. apply set_retry_same.
Qed.

Lemma processOutbox_loop_outbox_only clock dispatch m n : forall i s stats s' stats',
  processOutbox_loop n i clock dispatch m s stats = Ok (s', stats') ->
  outbox_only s s'.
Proof.
  induction n as [|n IH]; intros i s stats s' stats' H.
  - cbn in H. inversion H; subst. apply outbox_only_refl.
  - cbn [processOutbox_loop] in H.
    pose proof (claimOne_outbox_only (clock i) s) as Hc.
    destruct (claimOne (clock i) s) as [[doc|] s1];
      [|inversion H; subst; apply outbox_only_refl].
    cbn [snd] in Hc. destruct stats as [[att snt] ret].
    destruct (dispatch i doc).
    + destruct (markSent (clock i) s1 (ob_id doc)) as [s2|e] eqn:Em.
      * apply markSent_outbox_only in Em. apply IH in H.
        eapply outbox_only_trans; [exact Hc|]. eapply outbox_only_trans; eauto.
      * destruct (scheduleRetry (clock i) s1 doc m) as [s2|] eqn:Er; [|discriminate].
        cbn [rbind] in H. apply scheduleRetry_outbox_only in Er. apply IH in H.
        eapply outbox_only_trans; [exact Hc|]. eapply outbox_only_trans; eauto.
    + destruct (scheduleRetry (clock i) s1 doc m) as [s2|] eqn:Er; [|discriminate].
      cbn [rbind] in H. apply scheduleRetry_outbox_only in Er. apply IH in H.
      eapply outbox_only_trans; [exact Hc|]. eapply outbox_only_trans; eauto.
Qed.

(** *** Counting the queue *)

Lemma filter_length_partition {A} (P Q R : A -> Prop)
    `{forall x, Decision (P x)} `{forall x, Decision (Q x)} `{forall x, Decision (R x)}
    (l : list A) :
  (forall x, R x <-> P x \/ Q x) -> (forall x, P x -> Q x -> False) ->
  Nat.add (List.length (filter P l)) (List.length (filter Q l))
  = List.length (filter R l).
Proof.
  intros HR Hdisj. induction l as [|d r IH]; [reflexivity|].
  rewrite !filter_cons.
  pose proof (HR d) as Hd. pose proof (Hdisj d) as Hx.
  repeat case_decide; cbn [List.length]; try lia; exfalso; tauto.
Qed.

Lemma countQueue_partition now (l : list OutboxDoc) :
  Nat.add
    (List.length (filter (fun d => is_due now d = true) l))
    (List.length (filter (fun d => (bool_decide (status d = ob_pending)
                                    && (now <? nextAttemptAt d)) = true) l))
  = List.length (filter (fun d => status d = ob_pending) l).
Proof.
  apply filter_length_partition.
  - intros x. unfold is_due.
    rewrite !andb_true_iff, !bool_decide_eq_true, Z.leb_le, Z.ltb_lt.
    destruct (Z.le_gt_cases (nextAttemptAt x) now); intuition lia.
  - intros x. unfold is_due.
    rewrite !andb_true_iff, !bool_decide_eq_true, Z.leb_le, Z.ltb_lt. lia.
Qed.

(** *** A claimed item is taken *)

Lemma claimOne_exclusive now1 now2 s d1 s1 d2 s2 :
  NoDup (map ob_id (outbox s)) ->
  claimOne now1 s = (Some d1, s1) ->
  claimOne now2 s1 = (Some d2, s2) ->
  ob_id d1 <> ob_id d2.
Proof.
  intros Hnd H1 H2 Heq.
  apply claimOne_some in H1 as (Hst & Hin1 & Hids).
  assert (Hnd1 : NoDup (map ob_id (outbox s1))) by now rewrite Hids.
  pose proof (claimOne_cases now2 s1) as Hc. rewrite H2 in Hc.
  destruct Hc as (i & d & Hl & Hdue & -> & _ & _).
  assert (Hin : In d (outbox s1)).
  { apply list_elem_of_In. apply list_elem_of_lookup. eauto. }
  cbn [set_processing ob_id] in Heq.
  rewrite (nodup_ids_eq _ d1 d Hnd1 Hin1 Hin Heq) in Hst.
  unfold is_due in Hdue. apply andb_prop in Hdue as [Hp _].
  apply bool_decide_eq_true in Hp. congruence.
Qed.

Lemma markSent_after_claim now s doc s1 now' :
  NoDup (map ob_id (outbox s)) ->
  claimOne now s = (Some doc, s1) ->
  exists s2 i,
    markSent now' s1 (ob_id doc) = Ok s2 /\
    outbox s1 !! i = Some doc /\
    outbox s2 = <[i := set_sent now' doc]> (outbox s1).
Proof.
  intros Hnd H. apply claimOne_some in H as (Hst & Hin & Hids).
  assert (Hnd1 : NoDup (map ob_id (outbox s1))) by now rewrite Hids.
  unfold markSent.
  assert (Hex : existsb (fun d => (ob_id d =? ob_id doc)%N
                                  && bool_decide (status d = ob_processing))
                        (outbox s1) = true).
  { apply existsb_in with (x := doc); [exact Hin|].
    rewrite N.eqb_refl. now apply bool_decide_eq_true. }
  rewrite Hex.
  destruct (update_first_insert _ (set_sent now') _ Hex) as (i & d & Hl & Hp & _ & Hu).
  apply andb_prop in Hp as [Hp _]. apply N.eqb_eq in Hp.
  assert (Hd : In d (outbox s1)).
  { apply list_elem_of_In. apply list_elem_of_lookup. eauto. }
  rewrite (nodup_ids_eq _ d doc Hnd1 Hd Hin Hp) in Hl, Hu.
  eexists _, i. split; [reflexivity|]. split; [exact Hl|]. exact Hu.
Qed.

(** *** A run at one instant *)

Lemma due_count_insert now (l : list OutboxDoc) : forall i x y,
  l !! i = Some x ->
  Nat.add (due_count now (<[i := y]> l)) (if is_due now x then 1 else 0)
  = Nat.add (due_count now l) (if is_due now y then 1 else 0).
Proof.
  unfold due_count.
  induction l as [|d r IH]; intros i x y Hl; [discriminate|].
  destruct i as [|i]; simpl in Hl.
  - inversion Hl; subst. cbn [List.filter].
    change (<[0%nat := y]> (x :: r)) with (y :: r). cbn [List.filter].
    destruct (is_due now x), (is_due now y); cbn [List.length]; lia.
  - change (<[S i := y]> (d :: r)) with (d :: <[i := y]> r). cbn [List.filter].
    specialize (IH i x y Hl).
    destruct (is_due now d); cbn [List.length]; lia.
Qed.

Lemma due_count_zero now (l : list OutboxDoc) :
  (forall d, In d l -> is_due now d = false) -> due_count now l = 0%nat.
Proof.
  unfold due_count. induction l as [|d r IH]; intros H; [reflexivity|].
  cbn [List.filter]. rewrite (H d) by now left. apply IH. intros x Hx. apply H. now right.
Qed.

Lemma retryDelayMs_positive a m : 1 <= a -> 1 <= m -> 1 <= retryDelayMs a m.
Proof.
  intros Ha Hm. unfold retryDelayMs.
  assert (1 <= 2 ^ (a - 1)) by (apply (Z.pow_le_mono_r 2 0 (a - 1)); lia). lia.
Qed.

Lemma scheduleRetry_after_claim_exact now s doc s1 now' m :
  NoDup (map ob_id (outbox s)) ->
  claimOne now s = (Some doc, s1) ->
  exists s2 i,
    scheduleRetry now' s1 doc m = Ok s2 /\
    outbox s1 !! i = Some doc /\
    outbox s2
    = <[i := set_retry now' (now' + retryDelayMs (attempts doc + 1) m) doc]> (outbox s1).
Proof.
  intros Hnd H. apply claimOne_some in H as (Hst & Hin & Hids).
  assert (Hnd1 : NoDup (map ob_id (outbox s1))) by now rewrite Hids.
  unfold scheduleRetry.
  assert (Hex : existsb (fun d => (ob_id d =? ob_id doc)%N) (outbox s1) = true)
    by (apply existsb_in with (x := doc); [exact Hin | apply N.eqb_refl]).
  rewrite Hex.
  destruct (update_first_insert _
              (set_retry now' (now' + retryDelayMs (attempts doc + 1) m)) _ Hex)
    as (i & d & Hl & Hp & _ & Hu).
  apply N.eqb_eq in Hp.
  assert (Hd : In d (outbox s1)).
  { apply list_elem_of_In. apply list_elem_of_lookup. eauto. }
  rewrite (nodup_ids_eq _ d doc Hnd1 Hd Hin Hp) in Hl, Hu.
  eexists _, i. split; [reflexivity|]. split; [exact Hl|]. exact Hu.
Qed.

Lemma same_items_ids (a b : list OutboxDoc) :
  Forall2 same_item a b -> map ob_id b = map ob_id a.
Proof.
  induction 1 as [|x y l l' (Hid & _) _ IH]; [reflexivity|].
  cbn [map]. now rewrite Hid, IH.
Qed.

Lemma same_items_attempts (a b : list OutboxDoc) :
  Forall2 same_item a b ->
  (forall d, In d a -> 0 <= attempts d) -> forall d, In d b -> 0 <= attempts d.
Proof.
  induction 1 as [|x y l l' Hxy _ IH]; intros Ha d Hd; [destruct Hd|].
  destruct Hd as [<-|Hd].
  - destruct Hxy as (_ & _ & _ & _ & _ & Hle).
    pose proof (Ha x (or_introl eq_refl)). lia.
  - apply IH; [|exact Hd]. intros z Hz. apply Ha. now right.
Qed.

(** One iteration at time [now] takes exactly one item out of the due
    ones. *)
Lemma iteration_due_count now s doc s1 (ok : bool) m :
  NoDup (map ob_id (outbox s)) ->
  (forall d, In d (outbox s) -> 0 <= attempts d) ->
  1 <= m ->
  claimOne now s = (Some doc, s1) ->
  exists s2,
    (if ok then markSent now s1 (ob_id doc)
     else scheduleRetry now s1 doc m) = Ok s2 /\
    S (due_count now (outbox s2)) = due_count now (outbox s).
Proof.
  intros Hnd Hatt Hm Hc.
  pose proof (claimOne_cases now s) as Hcase. rewrite Hc in Hcase.
  destruct Hcase as (i & d & Hl & Hdue & Hdoc & _ & Hs1).
  assert (H1 : S (due_count now (outbox s1)) = due_count now (outbox s)).
  { rewrite Hs1. cbn [set_outbox outbox].
    pose proof (due_count_insert now (outbox s) i d doc Hl) as H.
    rewrite Hdue in H. subst doc.
    change (is_due now (set_processing now d)) with false in H.
    cbv iota in H. lia. }
  assert (Hdocatt : 0 <= attempts doc).
  { subst doc. cbn [set_processing attempts]. apply Hatt.
    apply list_elem_of_In. apply list_elem_of_lookup. eauto. }
  assert (Hnotdue : is_due now doc = false) by (subst doc; reflexivity).
  destruct ok.
  - destruct (markSent_after_claim now s doc s1 now Hnd Hc) as (s2 & j & Hm2 & Hj & Ho).
    exists s2. split; [exact Hm2|]. rewrite <- H1, Ho.
    pose proof (due_count_insert now (outbox s1) j doc (set_sent now doc) Hj) as H.
    rewrite Hnotdue in H. change (is_due now (set_sent now doc)) with false in H.
    cbv iota in H. lia.
  - destruct (scheduleRetry_after_claim_exact now s doc s1 now m Hnd Hc)
      as (s2 & j & Hr & Hj & Ho).
    exists s2. split; [exact Hr|]. rewrite <- H1, Ho.
    pose proof (due_count_insert now (outbox s1) j doc
                  (set_retry now (now + retryDelayMs (attempts doc + 1) m) doc) Hj) as H.
    rewrite Hnotdue in H.
    pose proof (retryDelayMs_positive (attempts doc + 1) m ltac:(lia) Hm) as Hpos.
    assert (Hr' : is_due now
                    (set_retry now (now + retryDelayMs (attempts doc + 1) m) doc) = false).
    { unfold is_due. cbn [set_retry status nextAttemptAt].
      apply andb_false_iff. right. apply Z.leb_gt. lia. }
    rewrite Hr' in H. cbv iota in H. lia.
Qed.

Lemma processOutbox_loop_count now dispatch m n : forall i s att snt ret s' att' snt' ret',
  NoDup (map ob_id (outbox s)) ->
  (forall d, In d (outbox s) -> 0 <= attempts d) ->
  1 <= m ->
  processOutbox_loop n i (fun _ => now) dispatch m s (att, snt, ret)
    = Ok (s', (att', snt', ret')) ->
  att' - att = Z.of_nat (Nat.min n (due_count now (outbox s))) /\
  Nat.add (due_count now (outbox s')) (Nat.min n (due_count now (outbox s)))
  = due_count now (outbox s).
Proof.
  induction n as [|n IH]; intros i s att snt ret s' att' snt' ret' Hnd Hatt Hm H.
  - cbn in H. inversion H; subst. cbn. split; lia.
  - cbn [processOutbox_loop] in H.
    pose proof (claimOne_cases now s) as Hcase.
    pose proof (claimOne_outbox_only now s) as Honly.
    destruct (claimOne now s) as [[doc|] s1] eqn:Ec.
    2:{ destruct Hcase as [_ Hnone]. inversion H; subst.
        rewrite (due_count_zero _ _ Hnone). rewrite Nat.min_0_r. split; lia. }
    cbn [snd] in Honly. clear Hcase.
    destruct (iteration_due_count now s doc s1 (dispatch i doc) m Hnd Hatt Hm Ec)
      as (s2 & Hstep & Hcount).
    assert (Honly2 : outbox_only s s2).
    { eapply outbox_only_trans; [exact Honly|].
      destruct (dispatch i doc);
        [eapply markSent_outbox_only | eapply scheduleRetry_outbox_only]; eauto. }
    destruct Honly2 as (_ & _ & _ & Hsame).
    assert (Hnd2 : NoDup (map ob_id (outbox s2)))
      by now rewrite (same_items_ids _ _ Hsame).
    pose proof (same_items_attempts _ _ Hsame Hatt) as Hatt2.
    destruct (dispatch i doc).
    + rewrite Hstep in H.
      destruct (IH _ _ _ _ _ _ _ _ _ Hnd2 Hatt2 Hm H) as [Ha Hd]. split; lia.
    + rewrite Hstep in H. cbn [rbind] in H.
      destruct (IH _ _ _ _ _ _ _ _ _ Hnd2 Hatt2 Hm H) as [Ha Hd]. split; lia.
Qed.

Lemma due_count_filter now (l : list OutboxDoc) :
  List.length (filter (fun d => is_due now d = true) l) = due_count now l.
Proof.
  unfold due_count. induction l as [|x r IH]; [reflexivity|].
  rewrite filter_cons. cbn [List.filter].
  destruct (decide (is_due now x = true)) as [E|E].
  - rewrite E. cbn [List.length]. now rewrite IH.
  - apply not_true_is_false in E. rewrite E. exact IH.
Qed.

Lemma computeBackoffMs_range a m r :
  0 <= a -> 0 <= m -> (0 <= r)%Q -> (r < 1)%Q ->
  let base := Z.min (2 ^ Z.min a 10 * 100) m in
  base <= computeBackoffMs a m r <= m /\
  5 * (computeBackoffMs a m r - base) <= base.
Proof.
  intros Ha Hm Hr0 Hr1 base. unfold computeBackoffMs. fold base.
  assert (Hpow : 0 < 2 ^ Z.min a 10) by (apply Z.pow_pos_nonneg; lia).
  assert (Hb0 : 0 <= base) by (unfold base; lia).
  assert (Hbm : base <= m) by (unfold base; lia).
  set (x := (r * (inject_Z base * (2 # 10)))%Q).
  assert (HbQ : (inject_Z 0 <= inject_Z base)%Q) by (now rewrite <- Zle_Qle).
  change (inject_Z 0) with 0%Q in HbQ.
  assert (Hx0 : (0 <= x)%Q) by (unfold x; nra).
  assert (Hx1 : (x * 5 <= inject_Z base)%Q) by (unfold x; nra).
  assert (Hj0 : 0 <= Qfloor x).
  { change 0 with (Qfloor 0). now apply Qfloor_resp_le. }
  assert (Hj1 : 5 * Qfloor x <= base).
  { pose proof (Qfloor_le x) as Hfl.
    rewrite Zle_Qle, inject_Z_mult. change (inject_Z 5) with 5%Q. nra. }
  lia.
Qed.

End OutboxMore.

(** ** From the poster to the dispatcher *)

Module PipelineFacts.
Import JournalFacts OutboxFacts.

Lemma fresh_ob_id_gt (items : list OutboxDoc) d :
  In d items -> (ob_id d < fresh_ob_id items)%N.
Proof.
  unfold fresh_ob_id. induction items as [|x r IH]; intros Hin; [destruct Hin|].
  cbn [map fold_right]. destruct Hin as [->|Hin]; [lia|].
  specialize (IH Hin). lia.
Qed.

Lemma fresh_ob_id_new (items : list OutboxDoc) :
  ~ In (fresh_ob_id items) (map ob_id items).
Proof.
  intros Hin. apply in_map_iff in Hin as (d & Hid & Hd).
  pose proof (fresh_ob_id_gt items d Hd). lia.
Qed.

(** A call of [postJournal] leaves the outbox as it is or adds the item of
    the journal at its end. *)
Lemma postJournal_outbox env s input :
  outbox (snd (postJournal env s input)) = outbox s
  \/ exists jid,
       outbox (snd (postJournal env s input))
       = (outbox s ++ [posted_outbox_item (now env) jid (outbox s)])%list.
Proof.
  pose proof (postJournal_cases env s input) as Hc.
  destruct (postJournal env s input) as [[r|e] s']; cbn [snd]; [|left; now subst].
  destruct Hc as (parsed & _ & _ & [(ex & _ & -> & _) |
                    (Hf & _ & s2 & aff & Ha & _ & _ & ->)]); [now left|].
  right. exists (journalId parsed).
  now destruct (committed_collections _ _ _ _ _ Hf Ha) as (_ & _ & Ho).
Qed.

Lemma outbox_wellformed_app s l jid now :
  outbox_wellformed s ->
  l = (outbox s ++ [posted_outbox_item now jid (outbox s)])%list ->
  NoDup (map ob_id l) /\ forall d, In d l -> 0 <= attempts d.
Proof.
  intros [Hnd Hatt] ->. split.
  - rewrite map_app. cbn [map posted_outbox_item ob_id].
    apply NoDup_app. split; [exact Hnd|]. split.
    + intros x Hx Hx'. apply list_elem_of_In in Hx, Hx'.
      destruct Hx' as [<- | []]. now apply (fresh_ob_id_new (outbox s)).
    + apply NoDup_singleton.
  - intros d Hd. apply in_app_or in Hd as [Hd|[<-|[]]]; [now apply Hatt|].
    cbn. lia.
Qed.

Lemma postJournal_outbox_wellformed env s input :
  outbox_wellformed s -> outbox_wellformed (snd (postJournal env s input)).
Proof.
  intros Hw. destruct (postJournal_outbox env s input) as [E|(jid & E)].
  - unfold outbox_wellformed. now rewrite E.
  - unfold outbox_wellformed. now apply (outbox_wellformed_app s _ jid (now env)).
Qed.

Lemma outbox_only_wellformed s s' :
  outbox_only s s' -> outbox_wellformed s -> outbox_wellformed s'.
Proof.
  intros (_ & _ & _ & Hsame) [Hnd Hatt]. split.
  - now rewrite (OutboxMore.same_items_ids _ _ Hsame).
  - now apply (OutboxMore.same_items_attempts _ _ Hsame).
Qed.

Lemma due_count_pos now (l : list OutboxDoc) d :
  In d l -> is_due now d = true -> (1 <= due_count now l)%nat.
Proof.
  unfold due_count. intros Hin Hd.
  assert (H : In d (List.filter (is_due now) l)) by (apply filter_In; now split).
  destruct (List.filter (is_due now) l); [destruct H|cbn; lia].
Qed.

Lemma due_count_app now (l1 l2 : list OutboxDoc) :
  due_count now (l1 ++ l2) = Nat.add (due_count now l1) (due_count now l2).
Proof. unfold due_count. now rewrite List.filter_app, length_app. Qed.

Lemma loop_nothing_due now dispatch m n i s stats :
  due_count now (outbox s) = 0%nat ->
  processOutbox_loop n i (fun _ => now) dispatch m s stats = Ok (s, stats).
Proof.
  intros H0. destruct n as [|n]; [reflexivity|]. cbn [processOutbox_loop].
  pose proof (OutboxMore.claimOne_cases now s) as Hc.
  destruct (claimOne now s) as [[doc|] s1]; [|reflexivity].
  destruct Hc as (j & d & Hl & Hdue & _).
  assert (Hin : In d (outbox s)).
  { apply list_elem_of_In. apply list_elem_of_lookup. eauto. }
  pose proof (due_count_pos now _ d Hin Hdue). lia.
Qed.

(** The item of a fresh posting is the one a claim returns when nothing
    else is due. *)
Lemma claimOne_posted now' s l item :
  outbox s = (l ++ [item])%list ->
  (forall d, In d l -> is_due now' d = false) ->
  is_due now' item = true ->
  exists s1, claimOne now' s = (Some (set_processing now' item), s1).
Proof.
  intros Ho Hnone Hdue.
  pose proof (OutboxMore.claimOne_cases now' s) as Hc.
  destruct (claimOne now' s) as [[doc|] s1].
  - destruct Hc as (j & d & Hl & Hd & -> & _).
    assert (Hin : In d (outbox s)).
    { apply list_elem_of_In. apply list_elem_of_lookup. eauto. }
    rewrite Ho in Hin. apply in_app_or in Hin as [Hin|[<-|[]]].
    + rewrite (Hnone d Hin) in Hd. discriminate.
    + eauto.
  - destruct Hc as [_ Hall]. rewrite (Hall item) in Hdue; [discriminate|].
    rewrite Ho. apply in_or_app. right. now left.
Qed.

Lemma deliver_loop now dispatch m n s item s1 s' a b c :
  outbox_wellformed s ->
  1 <= m ->
  claimOne now s = (Some item, s1) ->
  due_count now (outbox s) = 1%nat ->
  processOutbox_loop (S n) 0 (fun _ => now) dispatch m s (0, 0, 0)
    = Ok (s', (a, b, c)) ->
  a = 1 /\
  (dispatch 0%nat item = true ->
   b = 1 /\ c = 0 /\ In (set_sent now item) (outbox s')) /\
  (dispatch 0%nat item = false ->
   b = 0 /\ c = 1 /\
   In (set_retry now (now + retryDelayMs (attempts item + 1) m) item) (outbox s')).
Proof.
  intros [Hnd Hatt] Hm Hc H1 H. cbn [processOutbox_loop] in H. rewrite Hc in H.
  destruct (OutboxMore.iteration_due_count now s item s1 (dispatch 0%nat item) m
              Hnd Hatt Hm Hc) as (s2 & Hstep & Hcount).
  assert (H0 : due_count now (outbox s2) = 0%nat) by lia.
  destruct (dispatch 0%nat item) eqn:Ed.
  - rewrite Hstep in H. rewrite (loop_nothing_due now dispatch m n 1 s2 _ H0) in H.
    inversion H; subst. split; [reflexivity|]. split; [|discriminate].
    intros _. split; [reflexivity|]. split; [reflexivity|].
    destruct (OutboxMore.markSent_after_claim now s item s1 now Hnd Hc)
      as (s2' & i & Hm2 & Hi & Ho).
    rewrite Hstep in Hm2. inversion Hm2; subst s2'. rewrite Ho.
    apply list_elem_of_In. apply list_elem_of_lookup. exists i.
    apply list_lookup_insert_eq. now apply lookup_lt_Some in Hi.
  - rewrite Hstep in H. cbn [rbind] in H.
    rewrite (loop_nothing_due now dispatch m n 1 s2 _ H0) in H.
    inversion H; subst. split; [reflexivity|]. split; [discriminate|].
    intros _. split; [reflexivity|]. split; [reflexivity|].
    destruct (OutboxMore.scheduleRetry_after_claim_exact now s item s1 now m Hnd Hc)
      as (s2' & i & Hm2 & Hi & Ho).
    rewrite Hstep in Hm2. inversion Hm2; subst s2'. rewrite Ho.
    apply list_elem_of_In. apply list_elem_of_lookup. exists i.
    apply list_lookup_insert_eq. now apply lookup_lt_Some in Hi.
Qed.

End PipelineFacts.

(** * The properties of the specification *)













(** C5. On lines whose amounts have the valid decimal shape, the balance
    check returns exactly when the exact integer sum of [+value] for debit
    lines and [-value] for credit lines, in minor units, is zero, and
    throws [Journal not balanced] exactly when it is not; [cents] never
    throws on such amounts. *)
Theorem assertBalanced_iff (ls : list LineInput) :
  Forall (fun l => re_decimal (Some 2%nat) (amount (amount_ l)) = true) ls ->
  (assertBalanced ls = Ok tt <-> sum_signed_minor ls = 0) /\
  (assertBalanced ls = Err JournalNotBalanced <-> sum_signed_minor ls <> 0) /\
  Forall (fun l => cents (amount (amount_ l)) = Ok (toMinor_spec (amount (amount_ l)))) ls.
Proof.
  intros Hall. unfold assertBalanced.
  rewrite (AmountFacts.assertBalanced_loop_valid ls 0 Hall). cbn [rbind].
  replace (0 + sum_signed_minor ls) with (sum_signed_minor ls) by lia.
  split; [|split].
  - destruct (Z.eqb_spec (sum_signed_minor ls) 0) as [E|E]; cbn [negb].
    + split; auto.
    + split; [discriminate | intros; contradiction].
  - destruct (Z.eqb_spec (sum_signed_minor ls) 0) as [E|E]; cbn [negb].
    + split; [discriminate | intros; contradiction].
    + split; auto.
  - eapply Forall_impl; [exact Hall|]. intros l Hl. now apply AmountFacts.cents_valid.
Qed.

Lemma assertBalanced_iff_witness :
  (assertBalanced (lines journal_AB) = Ok tt <-> sum_signed_minor (lines journal_AB) = 0) /\
  (assertBalanced (lines journal_AB) = Err JournalNotBalanced
     <-> sum_signed_minor (lines journal_AB) <> 0) /\
  Forall (fun l => cents (amount (amount_ l)) = Ok (toMinor_spec (amount (amount_ l))))
         (lines journal_AB).
Proof.
  apply (assertBalanced_iff (lines journal_AB)).
  repeat constructor.
Defined.






(** C8 (the code departs from it). [scheduleRetry] filters on [_id] alone,
    where [markSent] also requires [status = processing]: called for an
    item that is already [sent], it puts the item back to [pending]. *)
Theorem scheduleRetry_reopens_sent :
  status (outbox_item ob_sent 1 0) = ob_sent /\
  scheduleRetry 0 (store_outbox ob_sent 1 0) (outbox_item ob_processing 0 0) 60000
    = Ok (store_outbox ob_pending 2 500) /\
  map status (outbox (store_outbox ob_pending 2 500)) = [ob_pending].
Proof. repeat split. Qed.

(** C9 (as the code has it). [normalizeAmountString] returns its input
    unchanged when the input is not digits optionally followed by a dot and
    one or more digits. On a decimal with at most two fraction digits it
    returns the canonical form (no leading zeros, and either no fraction or
    two fraction digits that are not both zero) of the same value. A decimal
    with more fraction digits is first cut to its first two fraction
    digits, which changes its value. *)
Theorem normalizeAmountString_spec (s : string) :
  (re_decimal None s = false -> normalizeAmountString s = s) /\
  (re_decimal (Some 2%nat) s = true ->
   is_canonical (normalizeAmountString s) = true /\
   toMinor_spec (normalizeAmountString s) = toMinor_spec s) /\
  (forall i f,
      s = i ++ String "."%char f ->
      all_digits i = true -> nonempty i = true ->
      all_digits f = true -> nonempty f = true ->
      normalizeAmountString s
      = normalizeAmountString (i ++ String "."%char (slice_0_2 f))).
Proof.
  split; [apply AmountFacts.normalize_unmatched|].
  split; [apply AmountFacts.normalize_valid|].
  intros i f -> Hi Hni Hf Hnf. now apply AmountFacts.normalize_truncates.
Qed.

Lemma normalizeAmountString_spec_witness :
  normalizeAmountString "1e3" = "1e3" /\
  (is_canonical (normalizeAmountString "007.5") = true /\
   toMinor_spec (normalizeAmountString "007.5") = toMinor_spec "007.5") /\
  normalizeAmountString "1.239" = normalizeAmountString ("1" ++ String "."%char (slice_0_2 "239")).
Proof.
  split; [|split].
  - apply (proj1 (normalizeAmountString_spec "1e3")). reflexivity.
  - apply (proj1 (proj2 (normalizeAmountString_spec "007.5"))). reflexivity.
  - apply (proj2 (proj2 (normalizeAmountString_spec "1.239")) "1" "239"); reflexivity.
Defined.

(** C9 as stated fails: ["1.239"] has three fraction digits, so it is not
    a decimal with at most two, yet it is not returned unchanged; it becomes
    ["1.23"], of another value. *)
Lemma normalizeAmountString_changes_malformed :
  re_decimal (Some 2%nat) "1.239" = false /\
  normalizeAmountString "1.239" = "1.23" /\
  normalizeAmountString "1.239" <> "1.239" /\
  ~ (forall s, re_decimal (Some 2%nat) s = false -> normalizeAmountString s = s).
Proof.
  split; [reflexivity|]. split; [reflexivity|]. split; [discriminate|].
  intros H. specialize (H "1.239" eq_refl). discriminate H.
Qed.

(** C10. A line with neither [fromBucket] nor [toBucket] passes
    [validateTransition] for every transition: the two absent values are
    equal, and the equality test comes before the presence checks. *)
Theorem validateTransition_bucketless (line : LineInput) :
  fromBucket line = None -> toBucket line = None ->
  validateTransition line = Ok tt.
Proof.
  intros Hf Ht. apply StateMachineFacts.validateTransition_noop. congruence.
Qed.

Lemma validateTransition_bucketless_witness :
  validateTransition line_bucketless = Ok tt.
Proof.
  apply (validateTransition_bucketless line_bucketless); reflexivity.
Defined.

(** * Further properties of the code *)

(** X1. [cents] throws exactly on the strings that are not digits
    optionally followed by a dot and one or more digits; on every other
    string, whatever the number of fraction digits, it returns a
    non-negative integer, and the fraction digits after the second do not
    count. *)
Theorem cents_accepts_decimals (s : string) :
  (re_decimal None s = false -> cents s = Err (InvalidAmountString s)) /\
  (re_decimal None s = true -> exists c, cents s = Ok c /\ 0 <= c) /\
  (forall i f,
      s = i ++ String "."%char f ->
      all_digits i = true -> nonempty i = true ->
      all_digits f = true -> nonempty f = true ->
      cents s = cents (i ++ String "."%char (slice_0_2 f))).
Proof.
  split; [apply AmountMore.cents_unmatched|].
  split; [apply AmountMore.cents_decimal_ok|].
  intros i f -> Hi Hni Hf Hnf.
  rewrite (AmountMore.cents_frac i f Hi Hni Hf Hnf).
  rewrite (AmountMore.cents_frac i (slice_0_2 f) Hi Hni
             (AmountFacts.slice_0_2_digits _ Hf) (AmountFacts.slice_0_2_nonempty _ Hnf)).
  now rewrite AmountFacts.slice_0_2_idem.
Qed.

Lemma cents_accepts_decimals_witness :
  cents "12,50" = Err (InvalidAmountString "12,50") /\
  (exists c, cents "0012.3456" = Ok c /\ 0 <= c) /\
  cents "0012.3456" = cents ("0012" ++ String "."%char (slice_0_2 "3456")).
Proof.
  split; [|split].
  - apply (proj1 (cents_accepts_decimals "12,50")). reflexivity.
  - apply (proj1 (proj2 (cents_accepts_decimals "0012.3456"))). reflexivity.
  - apply (proj2 (proj2 (cents_accepts_decimals "0012.3456")) "0012" "3456");
      reflexivity.
Defined.

(** X2. [normalizeAmountString] is idempotent: normalizing a normalized
    string returns it unchanged, for every input. *)
Theorem normalizeAmountString_idempotent (s : string) :
  normalizeAmountString (normalizeAmountString s) = normalizeAmountString s.
Proof. apply AmountMore.normalize_idempotent. Qed.

(** X3. Two decimal strings have the same normalized form exactly when
    [cents] gives them the same value. *)
Theorem cents_determines_normal_form (a b : string) :
  re_decimal None a = true -> re_decimal None b = true ->
  (cents a = cents b <-> normalizeAmountString a = normalizeAmountString b).
Proof.
  intros Ha Hb. split.
  - intros H. destruct (AmountMore.cents_decimal_ok a Ha) as (c & Hc & _).
    rewrite (AmountMore.normalize_is_format a c Hc).
    rewrite H in Hc. now rewrite (AmountMore.normalize_is_format b c Hc).
  - intros H. rewrite <- (AmountMore.cents_of_normalized a Ha).
    rewrite <- (AmountMore.cents_of_normalized b Hb). now rewrite H.
Qed.

Lemma cents_determines_normal_form_witness :
  cents "007.5" = cents "7.50999" <->
  normalizeAmountString "007.5" = normalizeAmountString "7.50999".
Proof.
  apply (cents_determines_normal_form "007.5" "7.50999"); reflexivity.
Defined.

(** X4. Every non-negative number of minor units is the [cents] value of
    exactly one string that [normalizeAmountString] leaves unchanged. *)
Theorem cents_canonical_representative (c : Z) :
  0 <= c ->
  exists s,
    normalizeAmountString s = s /\ cents s = Ok c /\
    forall s', normalizeAmountString s' = s' -> cents s' = Ok c -> s' = s.
Proof.
  intros Hc. destruct (AmountMore.format_minor_fixed c Hc) as [Hn Hv].
  exists (format_minor c). split; [exact Hn|]. split; [exact Hv|].
  intros s' Hn' Hv'. rewrite <- Hn'. now apply AmountMore.normalize_is_format.
Qed.

Lemma cents_canonical_representative_witness :
  exists s,
    normalizeAmountString s = s /\ cents s = Ok 1205 /\
    forall s', normalizeAmountString s' = s' -> cents s' = Ok 1205 -> s' = s.
Proof. apply (cents_canonical_representative 1205). lia. Defined.

(** X5. [isValidTransitionBuckets] returns true exactly for the three
    transitions whose rule names one [from] bucket as a string (reserve,
    release, revert) with their pair of buckets; for lock and finalize, whose
    [from] is an array, it returns false on every pair, also on the pairs
    [validateTransition] accepts. Whatever it accepts, [validateTransition]
    accepts. *)
Theorem isValidTransitionBuckets_spec (line : LineInput) :
  (isValidTransitionBuckets (transition line) (fromBucket line) (toBucket line) = true <->
     (transition line = reserve /\ fromBucket line = Some available
      /\ toBucket line = Some pending)
     \/ (transition line = release /\ fromBucket line = Some pending
         /\ toBucket line = Some available)
     \/ (transition line = revert /\ fromBucket line = Some escrow
         /\ toBucket line = Some available)) /\
  (isValidTransitionBuckets (transition line) (fromBucket line) (toBucket line) = true ->
   validateTransition line = Ok tt).
Proof.
  destruct line as [a fb tb sd am t]. cbn [transition fromBucket toBucket].
  split.
  - split.
    + destruct t, fb as [[]|], tb as [[]|]; cbn; intros H; try discriminate H; tauto.
    + intros [(-> & -> & ->) | [(-> & -> & ->) | (-> & -> & ->)]]; reflexivity.
  - destruct t, fb as [[]|], tb as [[]|]; cbn; intros H; try discriminate H;
      reflexivity.
Qed.

Lemma isValidTransitionBuckets_spec_witness :
  validateTransition line_reserve = Ok tt /\
  (isValidTransitionBuckets (transition line_lock) (fromBucket line_lock)
                            (toBucket line_lock) = true <->
     (transition line_lock = reserve /\ fromBucket line_lock = Some available
      /\ toBucket line_lock = Some pending)
     \/ (transition line_lock = release /\ fromBucket line_lock = Some pending
         /\ toBucket line_lock = Some available)
     \/ (transition line_lock = revert /\ fromBucket line_lock = Some escrow
         /\ toBucket line_lock = Some available)).
Proof.
  split.
  - apply (proj2 (isValidTransitionBuckets_spec line_reserve)). reflexivity.
  - apply (proj1 (isValidTransitionBuckets_spec line_lock)).
Defined.

(** X6. Every edge of [STATE_GRAPH] is a pair of the rules table, and the
    only pair of the rules table that [STATE_GRAPH] lacks is the lock from
    [available] to [escrow]. *)
Theorem STATE_GRAPH_vs_RULES (b g : Bucket) (t : Transition) :
  (STATE_GRAPH b t = Some g ->
   bucketMatches b (from (RULES t)) = true /\ bucketMatches g (to (RULES t)) = true) /\
  (bucketMatches b (from (RULES t)) = true -> bucketMatches g (to (RULES t)) = true ->
   STATE_GRAPH b t = Some g \/ (t = lock /\ b = available /\ g = escrow)).
Proof.
  split.
  - destruct b, t, g; cbn; intros H; try discriminate H; split; reflexivity.
  - destruct b, t, g; cbn; intros H1 H2; try discriminate H1; try discriminate H2;
      tauto.
Qed.

Lemma STATE_GRAPH_vs_RULES_witness :
  (bucketMatches pending (from (RULES lock)) = true /\
   bucketMatches escrow (to (RULES lock)) = true) /\
  (STATE_GRAPH available lock = Some escrow
   \/ (lock = lock /\ available = available /\ escrow = escrow)).
Proof.
  split.
  - apply (proj1 (STATE_GRAPH_vs_RULES pending escrow lock)). reflexivity.
  - apply (proj2 (STATE_GRAPH_vs_RULES available escrow lock)); reflexivity.
Defined.

(** X7. [validateAllTransitions] returns exactly when every line passes
    [validateTransition], and otherwise throws the error of the first line
    that does not. *)
Theorem validateAllTransitions_first_invalid (ls : list LineInput) :
  (validateAllTransitions ls = Ok tt <->
   Forall (fun l => validateTransition l = Ok tt) ls) /\
  (forall e,
      validateAllTransitions ls = Err e ->
      exists pre l post,
        ls = (pre ++ l :: post)%list /\
        Forall (fun x => validateTransition x = Ok tt) pre /\
        validateTransition l = Err e).
Proof.
  induction ls as [|l rest [IHok IHerr]].
  - split; [split; [constructor | reflexivity]|]. intros e H. discriminate H.
  - cbn [validateAllTransitions].
    destruct (validateTransition l) as [[]|e0] eqn:El; cbn [rbind].
    + split.
      * split.
        -- intros H. constructor; [exact El | now apply IHok].
        -- intros H. inversion H; subst. now apply IHok.
      * intros e H. destruct (IHerr e H) as (pre & x & post & -> & Hpre & Hx).
        exists (l :: pre), x, post. split; [reflexivity|]. split; [|exact Hx].
        now constructor.
    + split.
      * split; [discriminate|]. intros H. inversion H; subst. congruence.
      * intros e H. inversion H; subst.
        exists [], l, rest. split; [reflexivity|]. split; [constructor | exact El].
Qed.

Lemma validateAllTransitions_first_invalid_witness :
  exists pre l post,
    [line_reserve; line_bad_from; line_lock] = (pre ++ l :: post)%list /\
    Forall (fun x => validateTransition x = Ok tt) pre /\
    validateTransition l = Err (InvalidBucket "fromBucket" escrow reserve).
Proof.
  apply (proj2 (validateAllTransitions_first_invalid
                  [line_reserve; line_bad_from; line_lock])).
  reflexivity.
Defined.

(** X8. [assertSingleCurrency] returns the currency of the first line
    exactly when every line has that currency, throws when some line
    differs from the first, and returns ["USD"] for no line at all. *)
Theorem assertSingleCurrency_spec (ls : list LineInput) :
  (ls = [] -> assertSingleCurrency ls = Ok "USD") /\
  (forall c,
      ls <> [] ->
      (assertSingleCurrency ls = Ok c <->
       Forall (fun l => currency (amount_ l) = c) ls)) /\
  (assertSingleCurrency ls = Err CurrencyMismatch <->
   exists l0 rest l,
     ls = l0 :: rest /\ In l rest /\ currency (amount_ l) <> currency (amount_ l0)).
Proof.
  split; [now intros ->|]. split.
  - intros c Hne. destruct ls as [|l0 rest]; [congruence|].
    cbn [assertSingleCurrency].
    destruct (forallb _ (l0 :: rest)) eqn:E.
    + rewrite forallb_forall in E. split.
      * intros H. inversion H; subst. apply List.Forall_forall.
        intros x Hx. apply String.eqb_eq. now apply E.
      * intros H. inversion H; subst. reflexivity.
    + split; [discriminate|]. intros H. exfalso.
      assert (forallb (fun l => String.eqb (currency (amount_ l)) (currency (amount_ l0)))
                      (l0 :: rest) = true); [|congruence].
      apply forallb_forall. intros x Hx. apply String.eqb_eq.
      rewrite List.Forall_forall in H.
      rewrite (H x Hx). symmetry. apply H. now left.
  - destruct ls as [|l0 rest]; cbn [assertSingleCurrency].
    + split; [discriminate|]. intros (? & ? & ? & H & _). discriminate H.
    + destruct (forallb _ (l0 :: rest)) eqn:E.
      * split; [discriminate|]. intros (x0 & r & l & H & Hin & Hd).
        inversion H; subst. rewrite forallb_forall in E.
        exfalso. apply Hd. apply String.eqb_eq. apply E. now right.
      * split; [|reflexivity]. intros _.
        cbn [forallb] in E. rewrite String.eqb_refl in E. cbn [andb] in E.
        assert (Hex : exists l, In l rest /\
                   String.eqb (currency (amount_ l)) (currency (amount_ l0)) = false).
        { clear -E. induction rest as [|x r IH]; [discriminate|].
          cbn [forallb] in E. apply andb_false_iff in E as [E|E].
          - exists x. split; [now left | exact E].
          - destruct (IH E) as (l & Hin & Hl). exists l. split; [now right | exact Hl]. }
        destruct Hex as (l & Hin & Hl). exists l0, rest, l.
        split; [reflexivity|]. split; [exact Hin|]. now apply String.eqb_neq.
Qed.

Lemma assertSingleCurrency_spec_witness :
  assertSingleCurrency [] = Ok "USD" /\
  (assertSingleCurrency [line_reserve; line_lock] = Ok "USD" <->
   Forall (fun l => currency (amount_ l) = "USD") [line_reserve; line_lock]).
Proof.
  split.
  - apply (proj1 (assertSingleCurrency_spec [])). reflexivity.
  - apply (proj1 (proj2 (assertSingleCurrency_spec [line_reserve; line_lock]))).
    discriminate.
Defined.




(** X11. If every journal header of the store has at least two lines, all
    with a valid amount, a legal transition and one currency, and balanced
    debits and credits in minor units, then the same holds after any
    sequence of [postJournal] calls: the poster commits no other journal. *)
Theorem postJournal_commits_wellformed (calls : list (Env * JournalInput)) (s : Store) :
  journals_wellformed s -> journals_wellformed (post_all calls s).
Proof.
  revert s. induction calls as [|[env input] rest IH]; intros s Hw; [exact Hw|].
  cbn [post_all]. apply IH. now apply JournalMore.postJournal_wellformed.
Qed.

Lemma store_AB_wellformed : journals_wellformed store_AB.
Proof. intros h []. Qed.

Lemma postJournal_commits_wellformed_witness :
  journals_wellformed
    (post_all [(env_at 1, journal_AB); (env_at 2, journal_unbalanced)] store_AB).
Proof.
  apply postJournal_commits_wellformed. exact store_AB_wellformed.
Defined.







(** X15. The schema and preflight checks do not look at the store: a call
    that ends with a schema issue or a preflight error ends with the same
    error on every store and at every time, also on a store in which the
    journal is already posted. *)
Theorem postJournal_validation_ignores_store (env : Env) (s : Store)
    (input : JournalInput) (e : LedgerError) (s' : Store) :
  postJournal env s input = (Err e, s') ->
  (exists path, e = ValidationError path) \/ preflight_error e ->
  forall env2 s2, postJournal env2 s2 input = (Err e, s2).
Proof.
  intros H Hclass env2 s2.
  apply JournalMore.postJournal_error_cases in H
    as [(Hp & _) | [(parsed & Hp & Hv & _) | [(i & ->) |
        [(? & ? & ? & k & i & _ & _ & _ & _ & ->) | ->]]]].
  - unfold postJournal. now rewrite Hp.
  - unfold postJournal. now rewrite Hp, Hv.
  - destruct Hclass as [[? ?]|[]]; discriminate.
  - destruct Hclass as [[? ?]|[]]; discriminate.
  - destruct Hclass as [[? ?]|[]]; discriminate.
Qed.

Lemma postJournal_validation_ignores_store_witness :
  postJournal (env_at 1) store_AB journal_unbalanced
  = (Err JournalNotBalanced, store_AB) /\
  forall env2 s2,
    postJournal env2 s2 journal_unbalanced = (Err JournalNotBalanced, s2).
Proof.
  split; [vm_compute; reflexivity|].
  apply (postJournal_validation_ignores_store (env_at 1) store_AB
           journal_unbalanced JournalNotBalanced store_AB).
  - vm_compute. reflexivity.
  - right. exact I.
Defined.

(** X16. [claimOne] claims the due item that comes first in the order
    [(nextAttemptAt, createdAt, _id)]: the item returned is a pending item
    of the outbox whose time has come, set to [processing] with the update
    date [now]; no due item sorts strictly before it; and only its place in
    the outbox changes. It returns nothing, and leaves the store as it is,
    exactly when no item is due. *)
Theorem claimOne_earliest_due (now : Z) (s : Store) :
  match claimOne now s with
  | (None, s') =>
      s' = s /\ forall d, In d (outbox s) -> is_due now d = false
  | (Some doc, s') =>
      exists i d,
        outbox s !! i = Some d /\ is_due now d = true /\
        doc = set_processing now d /\
        (forall x, In x (outbox s) -> is_due now x = true -> ~ claim_order_lt x d) /\
        s' = set_outbox s (<[i := doc]> (outbox s))
  end.
Proof. apply OutboxMore.claimOne_cases. Qed.

(** X17. A claimed item is taken: in an outbox whose items have distinct
    [_id], the next claim, at whatever time, returns another item. *)
Theorem claimOne_never_twice (now1 now2 : Z) (s : Store) (d1 : OutboxDoc)
    (s1 : Store) (d2 : OutboxDoc) (s2 : Store) :
  NoDup (map ob_id (outbox s)) ->
  claimOne now1 s = (Some d1, s1) ->
  claimOne now2 s1 = (Some d2, s2) ->
  ob_id d1 <> ob_id d2.
Proof. apply OutboxMore.claimOne_exclusive. Qed.

Lemma store_three_due_ids : NoDup (map ob_id (outbox store_three_due)).
Proof. apply (bool_decide_unpack _). vm_compute. exact I. Qed.

Lemma claimOne_never_twice_witness :
  ob_id (set_processing 0 (due_item 1 "J1" (-3000)))
  <> ob_id (set_processing 5 (due_item 2 "J2" (-2000))).
Proof.
  eapply (claimOne_never_twice 0 5 store_three_due).
  - exact store_three_due_ids.
  - vm_compute. reflexivity.
  - vm_compute. reflexivity.
Defined.

(** X18. [processOutbox] run alone never fails: every claimed item is
    found again by [markSent] or by [scheduleRetry], so the error
    [scheduleRetry: outbox item not found] is not reached. Each attempt ends
    as sent or as retried, and there are at most [maxBatch] of them. *)
Theorem processOutbox_never_throws (maxBatch : nat) (clock : nat -> Z)
    (dispatch : nat -> OutboxDoc -> bool) (maxBackoffMs : Z) (s : Store) :
  exists r s',
    processOutbox maxBatch clock dispatch maxBackoffMs s = Ok (r, s') /\
    attempted r = sent r + retried r /\
    0 <= sent r /\ 0 <= retried r /\
    attempted r <= Z.of_nat maxBatch.
Proof.
  unfold processOutbox.
  destruct (OutboxMore.processOutbox_loop_ok clock dispatch maxBackoffMs maxBatch
              0%nat s 0 0 0) as (s' & a & b & c & H & H1 & H2 & H3 & H4).
  rewrite H. cbn [rbind].
  destruct (countQueue (clock maxBatch) s') as [p pr].
  eexists _, s'. split; [reflexivity|]. cbn. repeat split; lia.
Qed.

(** X19. The dispatcher writes the outbox only: accounts, journal headers
    and audit entries are as before, and the outbox has the same items in
    the same places, each with its [_id], journal, topic, payload and
    creation date, and with no fewer attempts than before. *)
Theorem processOutbox_writes_outbox_only (maxBatch : nat) (clock : nat -> Z)
    (dispatch : nat -> OutboxDoc -> bool) (maxBackoffMs : Z) (s : Store)
    (r : OutboxProcessResult) (s' : Store) :
  processOutbox maxBatch clock dispatch maxBackoffMs s = Ok (r, s') ->
  outbox_only s s'.
Proof.
  unfold processOutbox. intros H.
  destruct (processOutbox_loop maxBatch 0 clock dispatch maxBackoffMs s (0, 0, 0))
    as [[s1 [[a b] c]]|e] eqn:E; [|discriminate].
  cbn [rbind] in H. destruct (countQueue (clock maxBatch) s1) as [p pr].
  inversion H; subst.
  eapply OutboxMore.processOutbox_loop_outbox_only. exact E.
Qed.

Lemma processOutbox_writes_outbox_only_witness :
  exists r s',
    processOutbox 2 (fun _ => 0) (fun i _ => Nat.eqb i 0) 60000 store_three_due
    = Ok (r, s') /\
    outbox_only store_three_due s'.
Proof.
  eexists _, _. split; [vm_compute; reflexivity|].
  eapply (processOutbox_writes_outbox_only 2 (fun _ => 0) (fun i _ => Nat.eqb i 0)
            60000 store_three_due).
  vm_compute. reflexivity.
Defined.

(** X20. [countQueue] counts every pending item once: as due
    ([nextAttemptAt <= now]) or as waiting for a retry
    ([nextAttemptAt > now]). *)
Theorem countQueue_counts_pending_once (now : Z) (s : Store) :
  fst (countQueue now s) + snd (countQueue now s)
  = Z.of_nat (List.length (filter (fun d => status d = ob_pending) (outbox s))).
Proof.
  unfold countQueue. cbn [fst snd].
  rewrite <- Nat2Z.inj_add. f_equal. apply OutboxMore.countQueue_partition.
Qed.

(** X21. A run that takes no time attempts each due item once: with
    distinct [_id]s, attempt counts that are not negative and a backoff cap
    of at least one millisecond, the number of attempts is the smaller of
    [maxBatch] and the number of due items, whatever the dispatches do; an
    item that failed is not retried in the same run, and the [pending] figure
    of the result is the number of due items left. *)
Theorem processOutbox_each_due_item_once (maxBatch : nat) (now : Z)
    (dispatch : nat -> OutboxDoc -> bool) (maxBackoffMs : Z) (s : Store)
    (r : OutboxProcessResult) (s' : Store) :
  NoDup (map ob_id (outbox s)) ->
  (forall d, In d (outbox s) -> 0 <= attempts d) ->
  1 <= maxBackoffMs ->
  processOutbox maxBatch (fun _ => now) dispatch maxBackoffMs s = Ok (r, s') ->
  attempted r = Z.of_nat (Nat.min maxBatch (due_count now (outbox s))) /\
  res_pending r = Z.of_nat (due_count now (outbox s)) - attempted r.
Proof.
  intros Hnd Hatt Hm H. unfold processOutbox in H.
  destruct (processOutbox_loop maxBatch 0 (fun _ => now) dispatch maxBackoffMs s
              (0, 0, 0)) as [[s1 [[a b] c]]|e] eqn:E; [|discriminate].
  cbn [rbind] in H.
  destruct (OutboxMore.processOutbox_loop_count _ _ _ _ _ _ _ _ _ _ _ _ _ Hnd Hatt Hm E)
    as [Ha Hd].
  unfold countQueue in H. inversion H; subst. cbn [attempted res_pending].
  rewrite OutboxMore.due_count_filter. lia.
Qed.

Lemma store_three_due_attempts :
  forall d, In d (outbox store_three_due) -> 0 <= attempts d.
Proof. intros d [<- | [<- | [<- | []]]]; cbn; lia. Qed.

Lemma processOutbox_each_due_item_once_witness :
  exists r s',
    processOutbox 2 (fun _ => 0) (fun _ _ => false) 60000 store_three_due
    = Ok (r, s') /\
    attempted r = Z.of_nat (Nat.min 2 (due_count 0 (outbox store_three_due))) /\
    res_pending r = Z.of_nat (due_count 0 (outbox store_three_due)) - attempted r.
Proof.
  eexists _, _. split; [vm_compute; reflexivity|].
  eapply (processOutbox_each_due_item_once 2 0 (fun _ _ => false) 60000
            store_three_due).
  - exact store_three_due_ids.
  - exact store_three_due_attempts.
  - lia.
  - vm_compute. reflexivity.
Defined.



(** X23. [computeBackoffMs] stays between its capped exponential base
    [min(2^min(attempts,10) * 100, maxBackoffMs)] and [maxBackoffMs], and
    the jitter adds at most a fifth of the base. *)
Theorem computeBackoffMs_bounds (attempts maxBackoffMs : Z) (r : Q) :
  0 <= attempts -> 0 <= maxBackoffMs -> (0 <= r)%Q -> (r < 1)%Q ->
  let base := Z.min (2 ^ Z.min attempts 10 * 100) maxBackoffMs in
  base <= computeBackoffMs attempts maxBackoffMs r <= maxBackoffMs /\
  5 * (computeBackoffMs attempts maxBackoffMs r - base) <= base.
Proof. apply OutboxMore.computeBackoffMs_range. Qed.

Lemma computeBackoffMs_bounds_witness :
  let base := Z.min (2 ^ Z.min 3 10 * 100) 30000 in
  base <= computeBackoffMs 3 30000 (1 # 2) <= 30000 /\
  5 * (computeBackoffMs 3 30000 (1 # 2) - base) <= base.
Proof.
  apply (computeBackoffMs_bounds 3 30000 (1 # 2)); [lia | lia | |]; reflexivity || (intro H; discriminate H).
Defined.

(** X24. Every line of a freshly posted journal shows in the history of
    its account, with its transition, its amount as the schema left it and
    the date of the posting; asked without a currency, with the empty
    string, or with the currency of the line. *)
Theorem accountHistory_shows_posted_lines (env : Env) (s : Store)
    (input parsed : JournalInput) (r : PostJournalResult) (s' : Store)
    (line : LineInput) (cur : option string) :
  JournalSchema_parse input = Ok parsed ->
  findExistingJournal s parsed = None ->
  postJournal env s input = (Ok r, s') ->
  In line (lines parsed) ->
  cur = None \/ cur = Some "" \/ cur = Some (currency (amount_ line)) ->
  exists h,
    accountHistory s' (accountId line) cur = Ok h /\
    In (item_of_line (now env) line) (history h).
Proof.
  intros Hp Hf H Hin Hcur.
  pose proof (HistoryFacts.postJournal_fresh_entries _ _ _ _ _ _ Hp Hf H) as Hl.
  destruct (JournalMore.JournalSchema_parse_ok _ _ Hp) as (_ & _ & _ & _ & _ & Hls).
  assert (Hid : accountId line <> "").
  { apply HistoryFacts.nonempty_spec.
    apply list_elem_of_In in Hin. apply list_elem_of_lookup in Hin as [i Hi].
    destruct (Forall2_lookup_r _ _ _ _ _ Hls Hi) as (l0 & _ & Hl0).
    now apply JournalMore.LineSchema_parse_ok in Hl0 as (_ & _ & Hne & _). }
  destruct (HistoryFacts.accountHistory_ok s' _ cur Hid) as (items & Hh & Hitems).
  eexists. split; [exact Hh|]. cbn [history].
  destruct (HistoryFacts.ledger_entries_of_in (now env) (journalId parsed)
              (lines parsed) 0 line Hin) as (k & Hk).
  change (item_of_line (now env) line)
    with (history_item (entry_for (now env) (journalId parsed) k line)).
  apply in_map. rewrite Hitems. apply HistoryFacts.sort_by_createdAt_in.
  apply filter_In. split.
  - rewrite Hl. apply in_or_app. now right.
  - apply HistoryFacts.history_query_spec. split; [reflexivity|].
    intros c Hc Hne. cbn [entry_for le_currency].
    destruct Hcur as [-> | [-> | ->]]; congruence.
Qed.

Lemma accountHistory_shows_posted_lines_witness :
  exists h,
    accountHistory store_AB_posted "A" (Some "USD") = Ok h /\
    In (item_of_line 1 (usd_line "A" (Some available) (Some pending) debit "10" reserve))
       (history h).
Proof.
  apply (accountHistory_shows_posted_lines (env_at 1) store_AB journal_AB journal_AB
           {| ok := true; res_journalId := "J-0002" |} store_AB_posted
           (usd_line "A" (Some available) (Some pending) debit "10" reserve)
           (Some "USD")).
  - reflexivity.
  - reflexivity.
  - vm_compute. reflexivity.
  - left. reflexivity.
  - right. right. reflexivity.
Defined.

(** X25. The history of an account only grows: whatever calls of
    [postJournal] follow, accepted or refused, the history asked with the
    same arguments holds the items it held, as often, and possibly more. *)
Theorem accountHistory_only_grows (calls : list (Env * JournalInput)) (s : Store)
    (id : string) (cur : option string) (h : AccountHistory) :
  accountHistory s id cur = Ok h ->
  exists h' more,
    accountHistory (post_all calls s) id cur = Ok h' /\
    Permutation (history h') (history h ++ more)%list.
Proof.
  intros H.
  assert (Hid : id <> "").
  { intros ->. discriminate H. }
  destruct (HistoryFacts.accountHistory_ok s id cur Hid) as (i0 & H0 & E0).
  destruct (HistoryFacts.accountHistory_ok (post_all calls s) id cur Hid)
    as (i1 & H1 & E1).
  rewrite H0 in H. inversion H; subst h. clear H.
  destruct (HistoryFacts.post_all_appends calls s) as (added & Hadd).
  eexists _, _. split; [exact H1|]. cbn [history]. rewrite E0, E1.
  apply HistoryFacts.history_grows. exact Hadd.
Qed.

Lemma accountHistory_only_grows_witness :
  exists h' more,
    accountHistory (post_all [(env_at 1, journal_AB)] store_AB) "A" None = Ok h' /\
    Permutation (history h') ([] ++ more)%list.
Proof.
  apply (accountHistory_only_grows [(env_at 1, journal_AB)] store_AB "A" None
           {| ah_accountId := "A"; ah_currency := "USD"; history := [] |}).
  reflexivity.
Defined.




(** X28. Distinct [_id]s and attempt counts that are not negative are an
    invariant of the outbox: every call of [postJournal], accepted or
    refused, and every run of [processOutbox] keeps them. *)
Theorem outbox_wellformed_invariant (s : Store) :
  outbox_wellformed s ->
  (forall env input, outbox_wellformed (snd (postJournal env s input))) /\
  (forall maxBatch clock dispatch maxBackoffMs r s',
      processOutbox maxBatch clock dispatch maxBackoffMs s = Ok (r, s') ->
      outbox_wellformed s').
Proof.
  intros Hw. split.
  - intros env input. now apply PipelineFacts.postJournal_outbox_wellformed.
  - intros maxBatch clock dispatch m r s' H.
    apply (PipelineFacts.outbox_only_wellformed s s'); [|exact Hw].
    unfold processOutbox in H.
    destruct (processOutbox_loop maxBatch 0 clock dispatch m s (0, 0, 0))
      as [[s1 [[a b] c]]|e] eqn:E; [|discriminate].
    cbn [rbind] in H. destruct (countQueue (clock maxBatch) s1) as [p pr].
    inversion H; subst.
    eapply OutboxMore.processOutbox_loop_outbox_only. exact E.
Qed.

Lemma store_AB_outbox_wellformed : outbox_wellformed store_AB.
Proof. split; [constructor|]. intros d []. Qed.

Lemma outbox_wellformed_invariant_witness :
  (forall env input, outbox_wellformed (snd (postJournal env store_AB input))) /\
  (forall maxBatch clock dispatch maxBackoffMs r s',
      processOutbox maxBatch clock dispatch maxBackoffMs store_AB = Ok (r, s') ->
      outbox_wellformed s').
Proof.
  apply (outbox_wellformed_invariant store_AB). exact store_AB_outbox_wellformed.
Defined.

(** X29. From the poster to the dispatcher: the event of a freshly posted
    journal is due at once. When nothing else is due, a run of
    [processOutbox] at that time or later (the run taking no time) makes
    exactly one attempt, on that event; a dispatch that returns leaves the
    item [sent], one that throws leaves it [pending] with one attempt and the
    retry delay of a first failure. *)
Theorem posted_event_is_delivered (env : Env) (s : Store)
    (input parsed : JournalInput) (r : PostJournalResult) (s' : Store)
    (now' : Z) (n : nat) (dispatch : nat -> OutboxDoc -> bool) (maxBackoffMs : Z)
    (res : OutboxProcessResult) (s'' : Store) :
  JournalSchema_parse input = Ok parsed ->
  findExistingJournal s parsed = None ->
  postJournal env s input = (Ok r, s') ->
  outbox_wellformed s ->
  (forall d, In d (outbox s) -> is_due now' d = false) ->
  now env <= now' -> 1 <= maxBackoffMs ->
  processOutbox (S n) (fun _ => now') dispatch maxBackoffMs s' = Ok (res, s'') ->
  let item :=
    set_processing now'
      (posted_outbox_item (now env) (journalId parsed) (outbox s)) in
  attempted res = 1 /\
  (dispatch 0%nat item = true ->
   sent res = 1 /\ retried res = 0 /\ In (set_sent now' item) (outbox s'')) /\
  (dispatch 0%nat item = false ->
   sent res = 0 /\ retried res = 1 /\
   In (set_retry now' (now' + retryDelayMs 1 maxBackoffMs) item) (outbox s'')).
Proof.
  intros Hp Hf H Hw Hnone Hnow Hm Hrun item.
  pose proof (JournalFacts.postJournal_cases env s input) as Hc.
  rewrite H in Hc. destruct Hc as (parsed' & Hp' & _ & Hcase).
  rewrite Hp in Hp'. inversion Hp'; subst parsed'.
  destruct Hcase as [(ex & Hex & _) | (_ & _ & s2 & aff & Ha & _ & _ & Hs')];
    [congruence|].
  destruct (JournalFacts.committed_collections _ _ _ _ _ Hf Ha) as (_ & _ & Ho).
  rewrite <- Hs' in Ho.
  assert (Hw' : outbox_wellformed s').
  { unfold outbox_wellformed.
    now apply (PipelineFacts.outbox_wellformed_app s _ (journalId parsed) (now env)). }
  assert (Hdue : is_due now'
                   (posted_outbox_item (now env) (journalId parsed) (outbox s)) = true).
  { unfold is_due. cbn [posted_outbox_item status nextAttemptAt].
    apply andb_true_iff. split; [now apply bool_decide_eq_true|now apply Z.leb_le]. }
  destruct (PipelineFacts.claimOne_posted now' s' _ _ Ho Hnone Hdue) as (s1 & Hclaim).
  assert (H1 : due_count now' (outbox s') = 1%nat).
  { rewrite Ho, PipelineFacts.due_count_app.
    rewrite (OutboxMore.due_count_zero _ _ Hnone).
    unfold due_count. cbn [List.filter]. now rewrite Hdue. }
  unfold processOutbox in Hrun.
  destruct (processOutbox_loop (S n) 0 (fun _ => now') dispatch maxBackoffMs s'
              (0, 0, 0)) as [[sf [[a b] c]]|e] eqn:E; [|discriminate].
  cbn [rbind] in Hrun. destruct (countQueue now' sf) as [p pr].
  injection Hrun as <- <-. cbn [attempted sent retried].
  exact (PipelineFacts.deliver_loop now' dispatch maxBackoffMs n s' _ s1 _ a b c
           Hw' Hm Hclaim H1 E).
Qed.

Lemma posted_event_is_delivered_witness :
  exists res s'',
    processOutbox 1 (fun _ => 2) (fun _ _ => true) 60000 store_AB_posted
    = Ok (res, s'') /\
    let item := set_processing 2 (posted_outbox_item 1 "J-0002" []) in
    attempted res = 1 /\
    ((fun _ _ => true) 0%nat item = true ->
     sent res = 1 /\ retried res = 0 /\ In (set_sent 2 item) (outbox s'')) /\
    ((fun _ _ => true) 0%nat item = false ->
     sent res = 0 /\ retried res = 1 /\
     In (set_retry 2 (2 + retryDelayMs 1 60000) item) (outbox s'')).
Proof.
  eexists _, _. split; [vm_compute; reflexivity|].
  eapply (posted_event_is_delivered (env_at 1) store_AB journal_AB journal_AB
            {| ok := true; res_journalId := "J-0002" |} store_AB_posted 2 0
            (fun _ _ => true) 60000).
  - reflexivity.
  - reflexivity.
  - vm_compute. reflexivity.
  - exact store_AB_outbox_wellformed.
  - intros d [].
  - cbn. lia.
  - lia.
  - vm_compute. reflexivity.
Defined.
